(** * Redux store engine and reducer composer: a shallow embedding

    The development follows [createStore.js] and [combineReducers.js],
    and, for the bound action creators, [bindActionCreators.js].
    The closure variables of [createStore] ([currentReducer],
    [currentState], [currentListeners], [nextListeners], [isDispatching])
    become fields of a [World] record that every operation threads
    explicitly.  The two listener arrays are references into a heap of
    arrays, so that the aliasing [nextListeners === currentListeners]
    tested by [ensureCanMutateNextListeners] is modelled and not assumed.

    Reducers and listeners are JavaScript functions that may call back
    into the store.  A function body is a [Prog]: a finite tree whose
    nodes are calls of function values (with the normal or abrupt
    completion handed to the continuation, as [try]/[catch] would),
    object allocations and accesses to one mutable cell standing for the
    variables a closure captures.  The interpreter [invoke] is indexed
    by a call-depth budget.

    Boundaries of the model: a world holds one store; property reads
    see own data properties only (nothing inherited from a prototype);
    numbers are integers; the development diagnostics guarded by
    [process.env.NODE_ENV] are those of a production build (none), and
    the function that words the warning about the shape of the state is
    modelled on its own; the observable adapter and the application of
    an enhancer are outside; callbacks do not use [this]. *)

From stdpp Require Import list strings.
From Stdlib Require Import ZArith Lia.

Local Open Scope string_scope.
Local Open Scope list_scope.

#[local] Set Warnings "-register-all".

(** ** Values *)

Inductive Method := MDispatch | MSubscribe | MGetState | MReplaceReducer.

(** [VObj id plain fields]: an object allocated as number [id]; [plain]
    is what lodash's [isPlainObject] answers for it; [fields] are its
    own properties in enumeration order.  [VFun id] is a function of
    the program, [VMethod m] a method of the store, [VUnsub h] the
    [unsubscribe] closure number [h], [VComb c] the [combination]
    closure number [c]. *)
Inductive Value :=
| VUndef
| VNull
| VBool (b : bool)
| VNum (n : Z)
| VStr (s : string)
| VObj (id : nat) (plain : bool) (fields : list (string * Value))
| VFun (id : nat)
| VMethod (m : Method)
| VUnsub (h : nat)
| VComb (c : nat).

Inductive JsType :=
| TUndefined | TObject | TBoolean | TNumber | TString | TFunction.

Definition typeof (v : Value) : JsType :=
  match v with
  | VUndef => TUndefined
  | VNull | VObj _ _ _ => TObject
  | VBool _ => TBoolean
  | VNum _ => TNumber
  | VStr _ => TString
  | VFun _ | VMethod _ | VUnsub _ | VComb _ => TFunction
  end.

Definition is_function (v : Value) : bool :=
  match typeof v with TFunction => true | _ => false end.

Definition is_undefined (v : Value) : bool :=
  match typeof v with TUndefined => true | _ => false end.

Definition isPlainObject (v : Value) : bool :=
  match v with VObj _ plain _ => plain | _ => false end.

Definition truthy (v : Value) : bool :=
  match v with
  | VUndef | VNull => false
  | VBool b => b
  | VNum n => negb (n =? 0)%Z
  | VStr s => negb (String.eqb s "")
  | _ => true
  end.

Definition method_eqb (a b : Method) : bool :=
  match a, b with
  | MDispatch, MDispatch | MSubscribe, MSubscribe
  | MGetState, MGetState | MReplaceReducer, MReplaceReducer => true
  | _, _ => false
  end.

(** JavaScript's [===]: by value on primitives, by identity on objects
    and functions. *)
Definition strict_eq (a b : Value) : bool :=
  match a, b with
  | VUndef, VUndef | VNull, VNull => true
  | VBool x, VBool y => Bool.eqb x y
  | VNum x, VNum y => (x =? y)%Z
  | VStr x, VStr y => String.eqb x y
  | VObj i _ _, VObj j _ _ => Nat.eqb i j
  | VFun i, VFun j => Nat.eqb i j
  | VMethod m, VMethod m' => method_eqb m m'
  | VUnsub h, VUnsub h' => Nat.eqb h h'
  | VComb c, VComb c' => Nat.eqb c c'
  | _, _ => false
  end.

(** Own properties as an association list. *)
Fixpoint obj_get (fields : list (string * Value)) (key : string) : Value :=
  match fields with
  | [] => VUndef
  | (k, v) :: rest => if String.eqb k key then v else obj_get rest key
  end.

(** [o[key] = v]: overwrite in place, or add at the end. *)
Fixpoint obj_set (key : string) (v : Value) (fields : list (string * Value))
  : list (string * Value) :=
  match fields with
  | [] => [(key, v)]
  | (k, x) :: rest =>
      if String.eqb k key then (k, v) :: rest else (k, x) :: obj_set key v rest
  end.

(** [v[key]]; [None] is the TypeError of reading a property of
    [undefined] or [null]. *)
Definition get_prop (v : Value) (key : string) : option Value :=
  match v with
  | VUndef | VNull => None
  | VObj _ _ fields => Some (obj_get fields key)
  | _ => Some VUndef
  end.

(** The object [o] once the properties [fields] have been written to
    it: the identity stays. *)
Definition with_fields (fields : list (string * Value)) (o : Value) : Value :=
  match o with
  | VObj id plain _ => VObj id plain fields
  | _ => o
  end.

(** ** Errors and completions *)

Inductive ErrKind :=
| ExpectedEnhancerFunction
| ExpectedReducerFunction
| ExpectedListenerFunction
| ActionsMustBePlainObjects
| UndefinedActionType
| ReducersMayNotDispatch
| ExpectedNextReducerFunction
| UndefinedDuringInit (key : string)
| UndefinedOnProbe (key : string)
| ReducerReturnedUndefined (key : string) (actionType : Value)
| NotAFunction
| CannotReadProperty.

Inductive Thrown :=
| LibError (e : ErrKind)
| UserThrow (v : Value).

Definition thrown_truthy (t : Thrown) : bool :=
  match t with LibError _ => true | UserThrow v => truthy v end.

(** [if (sanityError)]: a caught value that is falsy does not count. *)
Definition sanity_raises (sanityError : option Thrown) : bool :=
  match sanityError with Some e => thrown_truthy e | None => false end.

Inductive Completion :=
| Normal (v : Value)
| Abrupt (t : Thrown).

Inductive Outcome :=
| Returned (v : Value)
| Threw (t : Thrown)
| OutOfFuel.

(** ** Function bodies *)

Inductive Prog :=
| Ret (v : Value)
| Throw (t : Thrown)
| Call (f : Value) (args : list Value) (k : Completion → Prog)
| New (plain : bool) (fields : list (string * Value)) (k : Value → Prog)
| ReadCell (k : Value → Prog)
| WriteCell (v : Value) (k : Prog).

(** ** The world: the store's closure variables and the heap *)

Record World := mkWorld {
  currentReducer : Value;
  currentState : Value;
  currentListeners : nat;
  nextListeners : nat;
  isDispatching : bool;
  arrays : list (list Value);
  subs : list (Value * bool);
  combos : list (list (string * Value) * option Thrown);
  nextId : nat;
  seed : nat;
  cell : Value
}.

Definition set_currentReducer (r : Value) (w : World) : World :=
  mkWorld r (currentState w) (currentListeners w) (nextListeners w)
    (isDispatching w) (arrays w) (subs w) (combos w) (nextId w) (seed w) (cell w).

Definition set_currentState (s : Value) (w : World) : World :=
  mkWorld (currentReducer w) s (currentListeners w) (nextListeners w)
    (isDispatching w) (arrays w) (subs w) (combos w) (nextId w) (seed w) (cell w).

Definition set_currentListeners (r : nat) (w : World) : World :=
  mkWorld (currentReducer w) (currentState w) r (nextListeners w)
    (isDispatching w) (arrays w) (subs w) (combos w) (nextId w) (seed w) (cell w).

Definition set_nextListeners (r : nat) (w : World) : World :=
  mkWorld (currentReducer w) (currentState w) (currentListeners w) r
    (isDispatching w) (arrays w) (subs w) (combos w) (nextId w) (seed w) (cell w).

Definition set_isDispatching (b : bool) (w : World) : World :=
  mkWorld (currentReducer w) (currentState w) (currentListeners w) (nextListeners w)
    b (arrays w) (subs w) (combos w) (nextId w) (seed w) (cell w).

Definition set_arrays (a : list (list Value)) (w : World) : World :=
  mkWorld (currentReducer w) (currentState w) (currentListeners w) (nextListeners w)
    (isDispatching w) a (subs w) (combos w) (nextId w) (seed w) (cell w).

Definition set_subs (s : list (Value * bool)) (w : World) : World :=
  mkWorld (currentReducer w) (currentState w) (currentListeners w) (nextListeners w)
    (isDispatching w) (arrays w) s (combos w) (nextId w) (seed w) (cell w).

Definition set_combos (c : list (list (string * Value) * option Thrown)) (w : World)
  : World :=
  mkWorld (currentReducer w) (currentState w) (currentListeners w) (nextListeners w)
    (isDispatching w) (arrays w) (subs w) c (nextId w) (seed w) (cell w).

Definition set_nextId (n : nat) (w : World) : World :=
  mkWorld (currentReducer w) (currentState w) (currentListeners w) (nextListeners w)
    (isDispatching w) (arrays w) (subs w) (combos w) n (seed w) (cell w).

Definition set_seed (n : nat) (w : World) : World :=
  mkWorld (currentReducer w) (currentState w) (currentListeners w) (nextListeners w)
    (isDispatching w) (arrays w) (subs w) (combos w) (nextId w) n (cell w).

Definition set_cell (v : Value) (w : World) : World :=
  mkWorld (currentReducer w) (currentState w) (currentListeners w) (nextListeners w)
    (isDispatching w) (arrays w) (subs w) (combos w) (nextId w) (seed w) v.

(** A world in which nothing has been created yet. *)
Definition empty_world : World :=
  mkWorld VUndef VUndef 0 0 false [] [] [] 0 0 VUndef.

(** The array a reference points to. *)
Definition arr (r : nat) (w : World) : list Value :=
  default [] (arrays w !! r).

(** An object literal: a fresh identity. *)
Definition alloc (plain : bool) (fields : list (string * Value)) (w : World)
  : Value * World :=
  (VObj (nextId w) plain fields, set_nextId (S (nextId w)) w).

Definition INIT : string := "@@redux/INIT".

(** The default parameter [state = {}]: a fresh empty object stands in
    for [undefined]. *)
Definition default_state (state : Value) (w : World) : Value * World :=
  if is_undefined state then alloc true [] w else (state, w).

(** ** Array primitives *)

(** [xs.indexOf(x)]: first index whose element is [===] to [x], or -1. *)
Fixpoint indexOf_from (i : Z) (xs : list Value) (x : Value) : Z :=
  match xs with
  | [] => (-1)%Z
  | y :: rest => if strict_eq y x then i else indexOf_from (i + 1)%Z rest x
  end.

Definition indexOf (xs : list Value) (x : Value) : Z := indexOf_from 0%Z xs x.

(** [xs.splice(index, 1)]: a negative index counts from the end. *)
Definition splice1 (index : Z) (xs : list Value) : list Value :=
  let len := Z.of_nat (length xs) in
  let start := if (index <? 0)%Z then Z.max (len + index) 0 else Z.min index len in
  delete (Z.to_nat start) xs.

(** ** The store engine *)

Definition Caller := Value → list Value → World → Outcome * World.

Definition ensureCanMutateNextListeners (w : World) : World :=
  if Nat.eqb (nextListeners w) (currentListeners w) then
    set_nextListeners (length (arrays w))
      (set_arrays (arrays w ++ [arr (currentListeners w) w]) w)
  else w.

Definition getState (w : World) : Outcome * World :=
  (Returned (currentState w), w).

Definition push_next (listener : Value) (w : World) : World :=
  set_arrays (alter (λ xs, xs ++ [listener]) (nextListeners w) (arrays w)) w.

Definition subscribe (listener : Value) (w : World) : Outcome * World :=
  if negb (is_function listener) then
    (Threw (LibError ExpectedListenerFunction), w)
  else
    let h := length (subs w) in
    let w1 := set_subs (subs w ++ [(listener, true)]) w in
    let w2 := ensureCanMutateNextListeners w1 in
    let w3 := push_next listener w2 in
    (Returned (VUnsub h), w3).

Definition unsubscribe (h : nat) (w : World) : Outcome * World :=
  match subs w !! h with
  | Some (listener, true) =>
      let w1 := set_subs (<[h := (listener, false)]> (subs w)) w in
      let w2 := ensureCanMutateNextListeners w1 in
      let index := indexOf (arr (nextListeners w2) w2) listener in
      let w3 := set_arrays (alter (splice1 index) (nextListeners w2) (arrays w2)) w2 in
      (Returned VUndef, w3)
  | _ => (Returned VUndef, w)
  end.

(** The [for] loop of [dispatch] over the array [listeners].  The length
    and the element are read from the heap at every round, as the loop
    does.  The second component lists the listeners the loop called, in
    order; it is there for the statements only. *)
Fixpoint notify_loop (call : Caller) (gas : nat) (listeners : nat) (i : nat)
    (w : World) : Outcome * World * list Value :=
  match arr listeners w !! i with
  | None => (Returned VUndef, w, [])
  | Some listener =>
      match gas with
      | O => (OutOfFuel, w, [])
      | S gas' =>
          match call listener [] w with
          | (Returned _, w') =>
              let '(r, called) := notify_loop call gas' listeners (S i) w' in
              (r, listener :: called)
          | (o, w') => (o, w', [listener])
          end
      end
  end.

(** [var listeners = currentListeners = nextListeners], then the loop. *)
Definition notify (call : Caller) (gas : nat) (w : World)
  : Outcome * World * list Value :=
  let listeners := nextListeners w in
  notify_loop call gas listeners 0 (set_currentListeners listeners w).

(** The three guards of [dispatch]; [None] when the action passes. *)
Definition dispatch_guard (action : Value) (w : World) : option ErrKind :=
  if negb (isPlainObject action) then Some ActionsMustBePlainObjects
  else if is_undefined (default VUndef (get_prop action "type")) then
    Some UndefinedActionType
  else if isDispatching w then Some ReducersMayNotDispatch
  else None.

(** [try { isDispatching = true; currentState = currentReducer(currentState, action) }
     finally { isDispatching = false }].  The [finally] clause runs on
    every completion of the reducer; a call budget that runs out is
    treated as one, as the engine's stack overflow would be. *)
Definition reduce (call : Caller) (action : Value) (w : World) : Outcome * World :=
  let w1 := set_isDispatching true w in
  match call (currentReducer w1) [currentState w1; action] w1 with
  | (Returned s, w2) => (Returned s, set_isDispatching false (set_currentState s w2))
  | (o, w2) => (o, set_isDispatching false w2)
  end.

Definition dispatch_full (call : Caller) (gas : nat) (action : Value) (w : World)
  : Outcome * World * list Value :=
  match dispatch_guard action w with
  | Some e => (Threw (LibError e), w, [])
  | None =>
      match reduce call action w with
      | (Returned _, w1) =>
          match notify call gas w1 with
          | (Returned _, w2, called) => (Returned action, w2, called)
          | r => r
          end
      | (o, w1) => (o, w1, [])
      end
  end.

Definition dispatch (call : Caller) (gas : nat) (action : Value) (w : World)
  : Outcome * World :=
  (dispatch_full call gas action w).1.

Definition replaceReducer (call : Caller) (gas : nat) (nextReducer : Value)
    (w : World) : Outcome * World :=
  if negb (is_function nextReducer) then
    (Threw (LibError ExpectedNextReducerFunction), w)
  else
    let w1 := set_currentReducer nextReducer w in
    let '(action, w2) := alloc true [("type", VStr INIT)] w1 in
    match dispatch call gas action w2 with
    | (Returned _, w3) => (Returned VUndef, w3)
    | r => r
    end.

(** ** The reducer composer *)

(** [action && action.type], the part of the action the error message
    of an undefined slice names. *)
Definition action_type_of (action : Value) : Value :=
  if truthy action then default VUndef (get_prop action "type") else action.

(** The loop of [combineReducers] that keeps the entries whose value is
    a function. *)
Fixpoint final_reducers (reducers : list (string * Value)) (keys : list string)
    (finalReducers : list (string * Value)) : list (string * Value) :=
  match keys with
  | [] => finalReducers
  | key :: rest =>
      final_reducers reducers rest
        (if is_function (obj_get reducers key)
         then obj_set key (obj_get reducers key) finalReducers
         else finalReducers)
  end.

Section Interpreter.

(** The bodies of the program's functions, and the suffixes that
    [Math.random()] contributes to the probe action types. *)
Variable code : nat → list Value → Prog.
Variable random_suffix : nat → string.

Definition probe_type (w : World) : string :=
  ("@@redux/PROBE_UNKNOWN_ACTION_" ++ random_suffix (seed w))%string.

Fixpoint run (call : Caller) (p : Prog) (w : World) : Outcome * World :=
  match p with
  | Ret v => (Returned v, w)
  | Throw t => (Threw t, w)
  | Call f args k =>
      match call f args w with
      | (Returned v, w') => run call (k (Normal v)) w'
      | (Threw t, w') => run call (k (Abrupt t)) w'
      | (OutOfFuel, w') => (OutOfFuel, w')
      end
  | New plain fields k =>
      let '(o, w') := alloc plain fields w in run call (k o) w'
  | ReadCell k => run call (k (cell w)) w
  | WriteCell v k => run call k (set_cell v w)
  end.

(** [assertReducerSanity]: the [forEach] over the keys; the first
    failure ends it. *)
Fixpoint assertReducerSanity (call : Caller) (reducers : list (string * Value))
    (keys : list string) (w : World) : Outcome * World :=
  match keys with
  | [] => (Returned VUndef, w)
  | key :: rest =>
      let reducer := obj_get reducers key in
      let '(initAction, w1) := alloc true [("type", VStr INIT)] w in
      match call reducer [VUndef; initAction] w1 with
      | (Returned initialState, w2) =>
          if is_undefined initialState then
            (Threw (LibError (UndefinedDuringInit key)), w2)
          else
            let type := probe_type w2 in
            let w3 := set_seed (S (seed w2)) w2 in
            let '(probe, w4) := alloc true [("type", VStr type)] w3 in
            match call reducer [VUndef; probe] w4 with
            | (Returned probed, w5) =>
                if is_undefined probed then
                  (Threw (LibError (UndefinedOnProbe key)), w5)
                else assertReducerSanity call reducers rest w5
            | r => r
            end
      | r => r
      end
  end.

(** [combineReducers]: the closure it returns is recorded in [combos]
    with the two variables it captures, [finalReducers] and
    [sanityError]. *)
Definition combineReducers (call : Caller) (reducers : list (string * Value))
    (w : World) : Outcome * World :=
  let finalReducers := final_reducers reducers (map fst reducers) [] in
  let finalReducerKeys := map fst finalReducers in
  match assertReducerSanity call finalReducers finalReducerKeys w with
  | (OutOfFuel, w1) => (OutOfFuel, w1)
  | (r, w1) =>
      let sanityError := match r with Threw e => Some e | _ => None end in
      (Returned (VComb (length (combos w1))),
       set_combos (combos w1 ++ [(finalReducers, sanityError)]) w1)
  end.

(** The [for] loop of [combination]; [inl] carries [hasChanged] and
    the properties written to [nextState] so far. *)
Fixpoint combination_loop (call : Caller) (finalReducers : list (string * Value))
    (state action : Value) (keys : list string) (hasChanged : bool)
    (nextState : list (string * Value)) (w : World)
  : (bool * list (string * Value) + Outcome) * World :=
  match keys with
  | [] => (inl (hasChanged, nextState), w)
  | key :: rest =>
      let reducer := obj_get finalReducers key in
      match get_prop state key with
      | None => (inr (Threw (LibError CannotReadProperty)), w)
      | Some previousStateForKey =>
          match call reducer [previousStateForKey; action] w with
          | (Returned nextStateForKey, w1) =>
              if is_undefined nextStateForKey then
                (inr (Threw (LibError
                   (ReducerReturnedUndefined key (action_type_of action)))), w1)
              else
                combination_loop call finalReducers state action rest
                  (hasChanged || negb (strict_eq nextStateForKey previousStateForKey))
                  (obj_set key nextStateForKey nextState) w1
          | (o, w1) => (inr o, w1)
          end
      end
  end.

(** [combination(state = {}, action)] for the closure number [c]. *)
Definition combination (call : Caller) (c : nat) (state action : Value) (w : World)
  : Outcome * World :=
  match combos w !! c with
  | None => (Threw (LibError NotAFunction), w)
  | Some (finalReducers, sanityError) =>
      let '(state, w0) := default_state state w in
      if sanity_raises sanityError then
        (match sanityError with
         | Some e => Threw e
         | None => Returned VUndef
         end, w0)
      else
        let '(nextObject, w1) := alloc true [] w0 in
        match combination_loop call finalReducers state action
                (map fst finalReducers) false [] w1 with
        | (inl (hasChanged, nextState), w2) =>
            (Returned (if hasChanged then with_fields nextState nextObject
                       else state), w2)
        | (inr o, w2) => (o, w2)
        end
  end.

Definition arg (i : nat) (args : list Value) : Value :=
  default VUndef (args !! i).

(** Calling a function value with at most [fuel] nested calls. *)
Fixpoint invoke (fuel : nat) (f : Value) (args : list Value) (w : World)
  : Outcome * World :=
  match fuel with
  | O => (OutOfFuel, w)
  | S n =>
      match f with
      | VFun id => run (invoke n) (code id args) w
      | VMethod MGetState => getState w
      | VMethod MSubscribe => subscribe (arg 0 args) w
      | VMethod MDispatch => dispatch (invoke n) n (arg 0 args) w
      | VMethod MReplaceReducer => replaceReducer (invoke n) n (arg 0 args) w
      | VUnsub h => unsubscribe h w
      | VComb c => combination (invoke n) c (arg 0 args) (arg 1 args) w
      | _ => (Threw (LibError NotAFunction), w)
      end
  end.

(** The five [var] declarations of [createStore]: [currentListeners]
    is a new empty array and [nextListeners] the same array. *)
Definition initial_store (reducer preloadedState : Value) (w : World) : World :=
  let listeners := length (arrays w) in
  set_isDispatching false
    (set_nextListeners listeners
      (set_currentListeners listeners
        (set_arrays (arrays w ++ [[]])
          (set_currentState preloadedState
            (set_currentReducer reducer w))))).

(** The store object [createStore] returns. *)
Definition store_fields : list (string * Value) :=
  [("dispatch", VMethod MDispatch); ("subscribe", VMethod MSubscribe);
   ("getState", VMethod MGetState); ("replaceReducer", VMethod MReplaceReducer)].

Inductive Created :=
| Delegated (enhancer reducer preloadedState : Value)
| Built (r : Outcome * World).

(** [createStore]; [Delegated] stands for the result
    [enhancer(createStore)(reducer, preloadedState)], which is not
    evaluated here. *)
Definition createStore (call : Caller) (gas : nat)
    (reducer preloadedState enhancer : Value) (w : World) : Created :=
  let '(preloadedState, enhancer) :=
    if is_function preloadedState && is_undefined enhancer
    then (VUndef, preloadedState) else (preloadedState, enhancer) in
  if negb (is_undefined enhancer) then
    if negb (is_function enhancer) then
      Built (Threw (LibError ExpectedEnhancerFunction), w)
    else Delegated enhancer reducer preloadedState
  else if negb (is_function reducer) then
    Built (Threw (LibError ExpectedReducerFunction), w)
  else
    let w1 := initial_store reducer preloadedState w in
    let '(action, w2) := alloc true [("type", VStr INIT)] w1 in
    match dispatch call gas action w2 with
    | (Returned _, w3) =>
        let '(store, w4) := alloc true store_fields w3 in
        Built (Returned store, w4)
    | r => Built r
    end.

End Interpreter.

(** ** The interface of the store, called from outside *)

Definition store_dispatch (code : nat → list Value → Prog) (fuel : nat)
    (action : Value) (w : World) : Outcome * World * list Value :=
  dispatch_full (invoke code fuel) fuel action w.

Definition store_replaceReducer (code : nat → list Value → Prog) (fuel : nat)
    (nextReducer : Value) (w : World) : Outcome * World :=
  replaceReducer (invoke code fuel) fuel nextReducer w.

Definition store_create (code : nat → list Value → Prog) (fuel : nat)
    (reducer preloadedState enhancer : Value) (w : World) : Created :=
  createStore (invoke code fuel) fuel reducer preloadedState enhancer w.

(** ** Predicates on worlds *)

(** How many elements of [xs] are [===] to [x]. *)
Fixpoint count_of (x : Value) (xs : list Value) : nat :=
  match xs with
  | [] => 0
  | y :: rest => (if strict_eq y x then 1 else 0) + count_of x rest
  end.

(** How many [unsubscribe] closures for [x] still have [isSubscribed]. *)
Fixpoint active_of (x : Value) (ss : list (Value * bool)) : nat :=
  match ss with
  | [] => 0
  | (y, b) :: rest => (if b && strict_eq y x then 1 else 0) + active_of x rest
  end.

(** The worlds a store can be in: [nextListeners] points into the heap,
    only functions were subscribed, and [nextListeners] holds one
    registration per [unsubscribe] closure not yet called. *)
Record wf (w : World) : Prop := mk_wf {
  wf_next : nextListeners w < length (arrays w);
  wf_fun : ∀ h l b, subs w !! h = Some (l, b) → is_function l = true;
  wf_count : ∀ x, count_of x (arr (nextListeners w) w) = active_of x (subs w)
}.

(** The array [ls] holds [snap] and cannot be written to: whenever
    [nextListeners] is [ls], so is [currentListeners], and the next
    mutation forks. *)
Definition snapshot (ls : nat) (snap : list Value) (w : World) : Prop :=
  arrays w !! ls = Some snap ∧ (nextListeners w = ls → currentListeners w = ls).

Definition idle (w : World) : Prop := isDispatching w = false.

(** A reducer is running, and [currentState] is still [s]. *)
Definition locked (s : Value) (w : World) : Prop :=
  isDispatching w = true ∧ currentState w = s.

(** [w'] is [w] after any number of calls of function values. *)
Inductive evolves (code : nat → list Value → Prog) (w : World) : World → Prop :=
| evolves_refl : evolves code w w
| evolves_call w1 fuel f args :
    evolves code w w1 → evolves code w (invoke code fuel f args w1).2.

(** A call that keeps a property of the world. *)
Definition preserves (I : World → Prop) (call : Caller) : Prop :=
  ∀ f args w, I w → I (call f args w).2.

(** The properties that every write of the store keeps. *)
Record Stable (I : World → Prop) : Prop := mk_Stable {
  st_cell : ∀ v w, I w → I (set_cell v w);
  st_alloc : ∀ n w, I w → I (set_nextId n w);
  st_reducer : ∀ r w, I w → I (set_currentReducer r w);
  st_flag : ∀ b w, I w → I (set_isDispatching b w);
  st_state : ∀ s w, I w → I (set_currentState s w);
  st_swap : ∀ w, I w → I (set_currentListeners (nextListeners w) w);
  st_subscribe : ∀ l w, I w → I (subscribe l w).2;
  st_unsubscribe : ∀ h w, I w → I (unsubscribe h w).2
}.

(** The [unsubscribe] closure [h] for [l] has been called. *)
Definition called_off (h : nat) (l : Value) (w : World) : Prop :=
  subs w !! h = Some (l, false).

(** A [combination] closure keeps the variables it captured. *)
Definition closure_at (c : nat) (rec : list (string * Value) * option Thrown)
    (w : World) : Prop :=
  combos w !! c = Some rec.

(** The listeners registered and not unsubscribed: the contents of
    [nextListeners]. *)
Definition registered (w : World) : list Value := arr (nextListeners w) w.

(** The world in which the notification pass of a dispatch begins: the
    one the reducer phase leaves. *)
Definition at_notification (code : nat → list Value → Prog) (fuel : nat)
    (action : Value) (w : World) : World :=
  (reduce (invoke code fuel) action w).2.

(** C1 as the specification words it: the listeners a dispatch calls
    are those registered before the dispatch began. *)
Definition notified_are_registered_before_dispatch : Prop :=
  ∀ code fuel action w v w' called,
    wf w → idle w →
    store_dispatch code fuel action w = (Returned v, w', called) →
    ∀ l, l ∈ called ↔ l ∈ registered w.

(** * Example program *)

Definition type_of (action : Value) : Value :=
  default VUndef (get_prop action "type").

Definition or_default (d state : Value) : Value :=
  if is_undefined state then d else state.

Definition demo_code (id : nat) (args : list Value) : Prog :=
  let state := arg 0 args in
  let action := arg 1 args in
  match id with
  | 0 => (* counterReducer; its states are numbers *)
      let state := or_default (VNum 0) state in
      if strict_eq (type_of action) (VStr "INC") then
        match state with
        | VNum n => Ret (VNum (n + 1))
        | _ => Ret state
        end
      else Ret state
  | 1 => (* a listener that unsubscribes closure 1 and subscribes function 3 *)
      Call (VUnsub 1) [] (λ _,
        Call (VMethod MSubscribe) [VFun 3] (λ _, Ret VUndef))
  | 4 => (* a reducer that subscribes function 3 on "SUB" *)
      let state := or_default (VNum 0) state in
      if strict_eq (type_of action) (VStr "SUB") then
        Call (VMethod MSubscribe) [VFun 3] (λ _, Ret state)
      else Ret state
  | 5 => (* a reducer that tries to dispatch and goes on *)
      Call (VMethod MDispatch) [action] (λ c,
        match c with
        | Abrupt (LibError ReducersMayNotDispatch) => Ret (VNum 7)
        | _ => Ret (VNum 0)
        end)
  | 6 => (* a reducer that raises on "BOOM" *)
      let state := or_default (VNum 0) state in
      if strict_eq (type_of action) (VStr "BOOM") then
        Throw (UserThrow (VStr "boom"))
      else Ret state
  | 7 => (* a reducer that returns nothing *)
      Ret VUndef
  | 8 => (* the flag reducer *)
      let state := or_default (VBool false) state in
      if strict_eq (type_of action) (VStr "TOGGLE") then
        match state with
        | VBool b => Ret (VBool (negb b))
        | _ => Ret state
        end
      else Ret state
  | 9 => (* a reducer that knows the INIT type by name *)
      if strict_eq (type_of action) (VStr INIT) then Ret (VNum 0) else Ret state
  | 10 => (* a reducer that returns nothing on "DROP" *)
      if strict_eq (type_of action) (VStr "DROP") then Ret VUndef
      else Ret (or_default (VNum 0) state)
  | _ => Ret VUndef
  end.

Definition world_of (c : Created) : World :=
  match c with
  | Built (_, w) => w
  | Delegated _ _ _ => empty_world
  end.

(** The action [{type: t}], allocated as object number [id]. *)
Definition action_of (id : nat) (t : string) : Value :=
  VObj id true [("type", VStr t)].

(** The store of the example program with [reducer] as its reducer. *)
Definition created_with (reducer : Value) : World :=
  world_of (store_create demo_code 4 reducer VUndef VUndef empty_world).

(** The counter store with the listener 2 subscribed. *)
Definition one_listener : World :=
  (subscribe (VFun 2) (created_with (VFun 0))).2.

(** The counter store with the listeners 1 and 2 subscribed. *)
Definition two_listeners : World :=
  (subscribe (VFun 2) (subscribe (VFun 1) (created_with (VFun 0))).2).2.

(** ** Runs of the slice reducers *)

(** [slices call finals state action keys w out w']: called in the
    order of [keys] from the world [w], each slice reducer of [finals]
    returns, for its slice of [state] and [action], the defined value
    that [out] lists for its key; [w'] is the world they leave. *)
Inductive slices (call : Caller) (finals : list (string * Value))
    (state action : Value)
  : list string → World → list (string * Value) → World → Prop :=
| slices_nil w : slices call finals state action [] w [] w
| slices_cons key keys prev next w w1 out w2 :
    get_prop state key = Some prev →
    call (obj_get finals key) [prev; action] w = (Returned next, w1) →
    is_undefined next = false →
    slices call finals state action keys w1 out w2 →
    slices call finals state action (key :: keys) w ((key, next) :: out) w2.

(** The new value of a slice is [===] to the one [state] holds. *)
Definition slice_same (state : Value) (kv : string * Value) : bool :=
  match get_prop state kv.1 with
  | Some prev => strict_eq kv.2 prev
  | None => false
  end.

(** C5 as the specification words it: when no slice changes, the
    combined reducer returns the state it was passed. *)
Definition unchanged_slices_return_the_argument : Prop :=
  ∀ call c finals state action w out w',
    combos w !! c = Some (finals, None) →
    NoDup (map fst finals) →
    slices call finals (default_state state w).1 action (map fst finals)
      (alloc true [] (default_state state w).2).2 out w' →
    forallb (slice_same (default_state state w).1) out = true →
    (combination call c state action w).1 = Returned state.

(** [sanity_fault random_suffix call reducers keys w e w']: probed in
    the order of [keys] from the world [w], the reducers before some
    key return defined values for both probes, and the reducer of that
    key returns [undefined], for the INIT probe ([e] is
    [UndefinedDuringInit key]) or else for the random one ([e] is
    [UndefinedOnProbe key]); [w'] is the world at that point. *)
Inductive sanity_fault (random_suffix : nat → string) (call : Caller)
    (reducers : list (string * Value))
  : list string → World → ErrKind → World → Prop :=
| fault_init key rest w v w2 :
    call (obj_get reducers key) [VUndef; action_of (nextId w) INIT]
      (set_nextId (S (nextId w)) w) = (Returned v, w2) →
    is_undefined v = true →
    sanity_fault random_suffix call reducers (key :: rest) w
      (UndefinedDuringInit key) w2
| fault_probe key rest w v w2 p w5 :
    call (obj_get reducers key) [VUndef; action_of (nextId w) INIT]
      (set_nextId (S (nextId w)) w) = (Returned v, w2) →
    is_undefined v = false →
    call (obj_get reducers key)
      [VUndef; action_of (nextId w2) (probe_type random_suffix w2)]
      (set_nextId (S (nextId w2)) (set_seed (S (seed w2)) w2)) = (Returned p, w5) →
    is_undefined p = true →
    sanity_fault random_suffix call reducers (key :: rest) w
      (UndefinedOnProbe key) w5
| fault_later key rest w v w2 p w5 e w' :
    call (obj_get reducers key) [VUndef; action_of (nextId w) INIT]
      (set_nextId (S (nextId w)) w) = (Returned v, w2) →
    is_undefined v = false →
    call (obj_get reducers key)
      [VUndef; action_of (nextId w2) (probe_type random_suffix w2)]
      (set_nextId (S (nextId w2)) (set_seed (S (seed w2)) w2)) = (Returned p, w5) →
    is_undefined p = false →
    sanity_fault random_suffix call reducers rest w5 e w' →
    sanity_fault random_suffix call reducers (key :: rest) w e w'.

(** The suffix [Math.random()] gives the probe types of the examples. *)
Definition demo_suffix (n : nat) : string := "k.3.f.9".

(** [combineReducers({})], then
    [combineReducers({count, label: "none", flag})] on top of it. *)
Definition no_slices : World :=
  (combineReducers demo_suffix (invoke demo_code 4) [] empty_world).2.

Definition two_slices : World :=
  (combineReducers demo_suffix (invoke demo_code 4)
     [("count", VFun 0); ("label", VStr "none"); ("flag", VFun 8)] no_slices).2.

(** Well-formedness of a concrete world, by computation. *)
Ltac wf_compute :=
  constructor;
  [ vm_compute; lia
  | vm_compute; intros h l b H;
    repeat (destruct h as [|h]; [by injection H as <- <- |]); discriminate H
  | intros x; vm_compute; reflexivity ].

(** The store whose reducer is [combineReducers({count, flag})]. *)
Definition combined_store : World :=
  world_of (store_create demo_code 4 (VComb 1) VUndef VUndef two_slices).

(** * The rest of the modules *)

(** ** Listeners and the reentrancy flag *)

(** The caller [call], except that it refuses to run anything while a
    reducer is running. *)
Definition when_idle (call : Caller) : Caller :=
  λ f args w, if isDispatching w then (OutOfFuel, w) else call f args w.

(** ** The diagnostics of [combineReducers.js] *)

(** [reducers.hasOwnProperty(key)]. *)
Fixpoint obj_has (fields : list (string * Value)) (key : string) : bool :=
  match fields with
  | [] => false
  | (k, _) :: rest => String.eqb k key || obj_has rest key
  end.

(** The double quote, and [keys.join('", "')]. *)
Definition dq : string := String (Ascii.ascii_of_nat 34) EmptyString.

Definition join_quoted (keys : list string) : string :=
  String.concat (dq ++ ", " ++ dq)%string keys.

Section Diagnostics.

(** Two things the engine provides: the class name that
    [Object.prototype.toString] gives a value, and the property names
    every object inherits (a read of such a name in the cache object
    finds the inherited, truthy, value). *)
Variable class_name : Value → string.
Variable inherited : string → bool.

(** [unexpectedKeyCache[key]], for a cache whose own keys are [cache]. *)
Definition cache_has (cache : list string) (key : string) : bool :=
  existsb (String.eqb key) cache || inherited key.

(** [getUnexpectedStateShapeWarningMessage]: the message, if any, and
    the own keys of [unexpectedKeyCache] afterwards. *)
Definition getUnexpectedStateShapeWarningMessage (inputState : Value)
    (reducers : list (string * Value)) (action : Value) (unexpectedKeyCache : list string)
  : option string * list string :=
  let reducerKeys := map fst reducers in
  let argumentName :=
    if truthy action && strict_eq (type_of action) (VStr INIT)
    then "preloadedState argument passed to createStore"
    else "previous state received by the reducer" in
  if Nat.eqb (length reducerKeys) 0 then
    (Some ("Store does not have a valid reducer. Make sure the argument passed "
           ++ "to combineReducers is an object whose values are reducers.")%string,
     unexpectedKeyCache)
  else
    match inputState with
    | VObj _ true fields =>
        let unexpectedKeys :=
          List.filter
            (λ key, negb (obj_has reducers key) && negb (cache_has unexpectedKeyCache key))
            (map fst fields) in
        let cache := unexpectedKeyCache ++ unexpectedKeys in
        if Nat.ltb 0 (length unexpectedKeys) then
          (Some ("Unexpected "
                 ++ (if Nat.ltb 1 (length unexpectedKeys) then "keys" else "key")
                 ++ " " ++ dq ++ join_quoted unexpectedKeys ++ dq
                 ++ " found in " ++ argumentName ++ ". "
                 ++ "Expected to find one of the known reducer keys instead: "
                 ++ dq ++ join_quoted reducerKeys ++ dq
                 ++ ". Unexpected keys will be ignored.")%string,
           cache)
        else (None, cache)
    | _ =>
        (Some ("The " ++ argumentName ++ " has unexpected type of " ++ dq
               ++ class_name inputState ++ dq
               ++ ". Expected argument to be an object with the following "
               ++ "keys: " ++ dq ++ join_quoted reducerKeys ++ dq)%string,
         unexpectedKeyCache)
    end.

End Diagnostics.

(** ** [bindActionCreators.js] *)

(** The functions this module makes are kept as their bodies: what they
    do with the arguments they are called with. *)
Definition Body := list Value → Prog.

(** [function () { return dispatch(actionCreator.apply(undefined, arguments)) }] *)
Definition bindActionCreator (actionCreator dispatch : Value) : Body :=
  λ arguments,
    Call actionCreator arguments (λ created,
      match created with
      | Normal action =>
          Call dispatch [action] (λ dispatched,
            match dispatched with
            | Normal v => Ret v
            | Abrupt t => Throw t
            end)
      | Abrupt t => Throw t
      end).

(** [boundActionCreators[key] = b]. *)
Fixpoint bound_set (key : string) (b : Body) (fields : list (string * Body))
  : list (string * Body) :=
  match fields with
  | [] => [(key, b)]
  | (k, x) :: rest =>
      if String.eqb k key then (k, b) :: rest else (k, x) :: bound_set key b rest
  end.

(** The loop over the keys of [actionCreators]. *)
Fixpoint bind_keys (actionCreators : list (string * Value)) (dispatch : Value)
    (keys : list string) (boundActionCreators : list (string * Body))
  : list (string * Body) :=
  match keys with
  | [] => boundActionCreators
  | key :: rest =>
      let actionCreator := obj_get actionCreators key in
      bind_keys actionCreators dispatch rest
        (if is_function actionCreator
         then bound_set key (bindActionCreator actionCreator dispatch)
                boundActionCreators
         else boundActionCreators)
  end.

Definition typeof_name (t : JsType) : string :=
  match t with
  | TUndefined => "undefined"
  | TObject => "object"
  | TBoolean => "boolean"
  | TNumber => "number"
  | TString => "string"
  | TFunction => "function"
  end.

Definition bind_error (received : string) : string :=
  ("bindActionCreators expected an object or a function, instead received "
   ++ received ++ ". " ++ "Did you write " ++ dq ++ "import ActionCreators from" ++ dq
   ++ " instead of " ++ dq ++ "import * as ActionCreators from" ++ dq ++ "?")%string.

Inductive Bound :=
| BoundFunction (f : Body)
| BoundObject (fields : list (string * Body)).

(** [bindActionCreators]; [inl] is the message of the error thrown. *)
Definition bindActionCreators (actionCreators dispatch : Value) : string + Bound :=
  if is_function actionCreators then
    inr (BoundFunction (bindActionCreator actionCreators dispatch))
  else
    match actionCreators with
    | VObj _ _ fields =>
        inr (BoundObject (bind_keys fields dispatch (map fst fields) []))
    | VNull => inl (bind_error "null")
    | v => inl (bind_error (typeof_name (typeof v)))
    end.

(** ** More functions for the examples *)

Definition more_code (id : nat) (args : list Value) : Prog :=
  match id with
  | 20 => (* an action creator *)
      New true [("type", VStr "INC"); ("by", arg 0 args)] (λ action, Ret action)
  | 21 => (* a listener that raises *)
      Throw (UserThrow (VStr "listener failed"))
  | 22 => (* a reducer that raises 0 when it is given no state *)
      if is_undefined (arg 0 args) then Throw (UserThrow (VNum 0)) else Ret (arg 0 args)
  | 23 => (* a listener that dispatches once the count is 1 *)
      Call (VMethod MGetState) [] (λ c,
        match c with
        | Normal (VNum 1) =>
            New true [("type", VStr "INC")] (λ action,
              Call (VMethod MDispatch) [action] (λ _, Ret VUndef))
        | _ => Ret VUndef
        end)
  | 24 => (* an action creator that raises *)
      Throw (UserThrow (VStr "no action"))
  | _ => demo_code id args
  end.

(** The counter store with a listener that raises, then listener 2;
    and the counter store with a listener that dispatches. *)
Definition failing_listener : World :=
  (subscribe (VFun 2) (subscribe (VFun 21) (created_with (VFun 0))).2).2.

Definition dispatching_listener : World :=
  (subscribe (VFun 23) (created_with (VFun 0))).2.

(** The reducer of the store is a function. *)
Definition reducer_is_function (w : World) : Prop :=
  is_function (currentReducer w) = true.


Definition falsy_slices : World :=
  set_combos [([("z", VFun 22)], None)] empty_world.

(** The names an empty object inherits that the examples use, and the
    class names of the values of the examples. *)
Definition prototype_names (key : string) : bool :=
  existsb (String.eqb key) ["constructor"; "toString"; "valueOf"; "hasOwnProperty"].

Definition class_of (v : Value) : string :=
  match v with
  | VUndef => "Undefined"
  | VNull => "Null"
  | VBool _ => "Boolean"
  | VNum _ => "Number"
  | VStr _ => "String"
  | VObj _ _ _ => "Object"
  | _ => "Function"
  end.

(** [{inc: creator 20, step: 1, fail: creator 24}]. *)
Definition counter_creators : list (string * Value) :=
  [("inc", VFun 20); ("step", VNum 1); ("fail", VFun 24)].

(** * Lemmas *)

(** ** Values and arrays *)

Lemma strict_eq_function x l :
  is_function l = true → strict_eq x l = true → x = l.
Proof.
  destruct l; try discriminate; intros _; destruct x; simpl; try discriminate.
  - intros H. apply Nat.eqb_eq in H. congruence.
  - destruct m, m0; simpl; congruence.
  - intros H. apply Nat.eqb_eq in H. congruence.
  - intros H. apply Nat.eqb_eq in H. congruence.
Qed.

Lemma strict_eq_function_refl l : is_function l = true → strict_eq l l = true.
Proof.
  destruct l; try discriminate; intros _; simpl; try apply Nat.eqb_refl.
  by destruct m.
Qed.

Lemma count_of_app x xs ys : count_of x (xs ++ ys) = count_of x xs + count_of x ys.
Proof. induction xs as [|y xs IH]; simpl; [done | rewrite IH; lia]. Qed.

Lemma active_of_app x ss ts : active_of x (ss ++ ts) = active_of x ss + active_of x ts.
Proof. induction ss as [|[y b] ss IH]; simpl; [done | rewrite IH; lia]. Qed.

(** A positive count gives the first occurrence, which [indexOf] finds. *)
Lemma indexOf_from_first x xs k :
  0 < count_of x xs →
  ∃ pre y post, xs = pre ++ y :: post ∧ strict_eq y x = true ∧
    count_of x pre = 0 ∧ indexOf_from k xs x = (k + Z.of_nat (length pre))%Z.
Proof.
  revert k. induction xs as [|y xs IH]; simpl; intros k Hpos; [lia |].
  destruct (strict_eq y x) eqn:E.
  - exists [], y, xs. simpl. repeat split; [done | lia].
  - destruct (IH (k + 1)%Z) as (pre & z & post & -> & Hz & Hpre & Hidx); [lia |].
    exists (y :: pre), z, post. simpl. rewrite E, Hpre. repeat split; try done. lia.
Qed.

Lemma splice1_middle (pre post : list Value) y :
  splice1 (Z.of_nat (length pre)) (pre ++ y :: post) = pre ++ post.
Proof.
  unfold splice1.
  destruct (Z.ltb_spec (Z.of_nat (length pre)) 0) as [Hneg|_]; [lia |].
  rewrite length_app. simpl.
  rewrite Z.min_l by lia. rewrite Nat2Z.id.
  induction pre as [|p pre IH]; simpl; [done | by rewrite IH].
Qed.

Lemma active_of_insert_off x ss h l :
  ss !! h = Some (l, true) →
  active_of x (<[h := (l, false)]> ss) + (if strict_eq l x then 1 else 0)
  = active_of x ss.
Proof.
  revert h. induction ss as [|[y b] ss IH]; intros [|h]; simpl; try done.
  - intros [= -> ->]. simpl. lia.
  - intros H. specialize (IH _ H). lia.
Qed.

Lemma active_of_positive ss h l :
  ss !! h = Some (l, true) → is_function l = true → 0 < active_of l ss.
Proof.
  revert h. induction ss as [|[y b] ss IH]; intros [|h]; simpl; try done.
  - intros [= -> ->] Hf. rewrite strict_eq_function_refl by done. simpl. lia.
  - intros H Hf. specialize (IH _ H Hf). lia.
Qed.

(** ** The copy-on-write discipline *)

Lemma ensure_arr_next w :
  arr (nextListeners (ensureCanMutateNextListeners w))
      (ensureCanMutateNextListeners w)
  = arr (nextListeners w) w.
Proof.
  unfold ensureCanMutateNextListeners.
  destruct (Nat.eqb_spec (nextListeners w) (currentListeners w)) as [E|E]; [|done].
  unfold arr at 1. simpl.
  rewrite lookup_app_r, Nat.sub_diag by done. simpl. by rewrite E.
Qed.

Lemma ensure_next_bound w :
  nextListeners w < length (arrays w) →
  nextListeners (ensureCanMutateNextListeners w)
  < length (arrays (ensureCanMutateNextListeners w)).
Proof.
  unfold ensureCanMutateNextListeners.
  destruct (Nat.eqb_spec (nextListeners w) (currentListeners w)); simpl; [|done].
  rewrite length_app. simpl. lia.
Qed.

Lemma ensure_subs w : subs (ensureCanMutateNextListeners w) = subs w.
Proof. unfold ensureCanMutateNextListeners. by destruct (Nat.eqb _ _). Qed.

(** After the fork test, the array about to be written is not the
    snapshot. *)
Lemma ensure_snapshot ls snap w :
  snapshot ls snap w →
  arrays (ensureCanMutateNextListeners w) !! ls = Some snap ∧
  nextListeners (ensureCanMutateNextListeners w) ≠ ls ∧
  currentListeners (ensureCanMutateNextListeners w) = currentListeners w.
Proof.
  intros [Hls Himp]. unfold ensureCanMutateNextListeners.
  pose proof (lookup_lt_Some _ _ _ Hls) as Hlt.
  destruct (Nat.eqb_spec (nextListeners w) (currentListeners w)) as [E|E]; simpl.
  - split; [by rewrite lookup_app_l | split; [lia | done]].
  - split; [done | split; [| done]]. intros Hn. apply E. rewrite (Himp Hn). done.
Qed.

(** ** Properties kept by every call

    One induction over the interpreter serves every invariant: a
    property kept by the operations that write to the world is kept by
    every call of a function value. *)

Lemma notify_loop_preserves I call gas ls i w :
  preserves I call → I w → I (notify_loop call gas ls i w).1.2.
Proof.
  intros Hcall. revert i w. induction gas as [|gas IH]; intros i w Hw; simpl.
  - by destruct (arr ls w !! i).
  - destruct (arr ls w !! i) as [l|]; [|done].
    pose proof (Hcall l [] w Hw) as Hw'.
    destruct (call l [] w) as [[v|t|] w']; simpl in *; try done.
    specialize (IH (S i) w' Hw').
    by destruct (notify_loop call gas ls (S i) w') as [[o w''] called].
Qed.

Section Preservation.

Variable code : nat → list Value → Prog.
Variable I : World → Prop.

Hypothesis I_cell : ∀ v w, I w → I (set_cell v w).
Hypothesis I_alloc : ∀ n w, I w → I (set_nextId n w).
Hypothesis I_reducer : ∀ r w, I w → I (set_currentReducer r w).
Hypothesis I_subscribe : ∀ l w, I w → I (subscribe l w).2.
Hypothesis I_unsubscribe : ∀ h w, I w → I (unsubscribe h w).2.
Hypothesis I_dispatch :
  ∀ call gas a w, preserves I call → I w → I (dispatch call gas a w).2.

Lemma run_preserves call p w : preserves I call → I w → I (run call p w).2.
Proof.
  intros Hcall. revert w.
  induction p as [v|t|f args k IH|plain fields k IH|k IH|v k IH]; intros w Hw;
    simpl; try done.
  - pose proof (Hcall f args w Hw) as Hw'.
    destruct (call f args w) as [[v|t|] w']; simpl in *; auto.
  - apply IH, I_alloc, Hw.
  - by apply IH.
  - by apply IH, I_cell.
Qed.

Lemma combination_loop_preserves call finals state action keys changed next w :
  preserves I call → I w →
  I (combination_loop call finals state action keys changed next w).2.
Proof.
  intros Hcall. revert changed next w.
  induction keys as [|key keys IH]; intros changed next w Hw; simpl; [done |].
  destruct (get_prop state key) as [prev|]; [|done].
  pose proof (Hcall (obj_get finals key) [prev; action] w Hw) as Hw'.
  destruct (call _ _ w) as [[v|t|] w']; simpl in *; try done.
  destruct (is_undefined v); [done | by apply IH].
Qed.

Lemma combination_preserves call c state action w :
  preserves I call → I w → I (combination call c state action w).2.
Proof.
  intros Hcall Hw. unfold combination.
  destruct (combos w !! c) as [[finals sanity]|]; [|done].
  assert (∃ s0 w0, default_state state w = (s0, w0) ∧ I w0)
    as (s0 & w0 & -> & Hw0).
  { unfold default_state.
    destruct (is_undefined state); eexists _, _; split; try done.
    by apply I_alloc. }
  destruct (sanity_raises sanity); [done |]. simpl.
  pose proof (combination_loop_preserves call finals s0 action (map fst finals)
                false [] _ Hcall (I_alloc (S (nextId w0)) w0 Hw0)) as H.
  destruct (combination_loop _ _ _ _ _ _ _ _) as [[[ch ns]|o] w2]; done.
Qed.

Lemma replaceReducer_preserves call gas r w :
  preserves I call → I w → I (replaceReducer call gas r w).2.
Proof.
  intros Hcall Hw. unfold replaceReducer.
  destruct (is_function r); simpl; [|done].
  pose proof (I_dispatch call gas (VObj (nextId (set_currentReducer r w)) true
                [("type", VStr INIT)]) _ Hcall
                (I_alloc (S (nextId (set_currentReducer r w))) _ (I_reducer r w Hw)))
    as H.
  destruct (dispatch _ _ _ _) as [[v|t|] w3]; done.
Qed.

Lemma invoke_preserves fuel : preserves I (invoke code fuel).
Proof.
  induction fuel as [|n IH]; intros f args w Hw; simpl; [done |].
  destruct f as [| | | | | | id | [] | h | c]; try done.
  - by apply run_preserves.
  - by apply I_dispatch.
  - by apply I_subscribe.
  - by apply replaceReducer_preserves.
  - by apply I_unsubscribe.
  - by apply combination_preserves.
Qed.

End Preservation.

Section StableFacts.

Variable I : World → Prop.
Hypothesis HI : Stable I.

Lemma stable_reduce call a w : preserves I call → I w → I (reduce call a w).2.
Proof.
  intros Hcall Hw. unfold reduce.
  pose proof (Hcall (currentReducer (set_isDispatching true w))
                [currentState (set_isDispatching true w); a] _
                (st_flag I HI true w Hw)) as H.
  destruct (call _ _ _) as [[v|t|] w2]; simpl in *.
  - by apply (st_flag I HI), (st_state I HI).
  - by apply (st_flag I HI).
  - by apply (st_flag I HI).
Qed.

Lemma stable_notify call gas w : preserves I call → I w → I (notify call gas w).1.2.
Proof.
  intros Hcall Hw. unfold notify.
  by apply notify_loop_preserves, (st_swap I HI).
Qed.

Lemma stable_dispatch_full call gas a w :
  preserves I call → I w → I (dispatch_full call gas a w).1.2.
Proof.
  intros Hcall Hw. unfold dispatch_full.
  destruct (dispatch_guard a w); [done |].
  pose proof (stable_reduce call a w Hcall Hw) as Hr.
  destruct (reduce call a w) as [[v|t|] w1]; simpl in *; try done.
  pose proof (stable_notify call gas w1 Hcall Hr) as Hn.
  destruct (notify call gas w1) as [[[v'|t|] w2] called]; done.
Qed.

Lemma stable_invoke code fuel : preserves I (invoke code fuel).
Proof.
  apply invoke_preserves; try apply HI.
  intros call gas a w Hcall Hw. by apply stable_dispatch_full.
Qed.

Lemma stable_evolves code w w' : evolves code w w' → I w → I w'.
Proof.
  induction 1 as [|w1 fuel f args _ IH]; [done |].
  intros Hw. by apply stable_invoke, IH.
Qed.

End StableFacts.

(** ** Well-formed worlds *)

Lemma arr_alter f r w :
  r < length (arrays w) →
  arr r (set_arrays (alter f r (arrays w)) w) = f (arr r w).
Proof.
  intros Hlt. unfold arr. simpl. rewrite list_lookup_alter_eq.
  destruct (lookup_lt_is_Some_2 _ _ Hlt) as [xs ->]. done.
Qed.

Lemma wf_subscribe l w : wf w → wf (subscribe l w).2.
Proof.
  intros [Hn Hf Hc]. unfold subscribe.
  destruct (is_function l) eqn:El; simpl; [|done].
  set (w1 := set_subs (subs w ++ [(l, true)]) w).
  assert (nextListeners w1 < length (arrays w1)) as Hn1 by done.
  pose proof (ensure_next_bound w1 Hn1) as Hn2.
  pose proof (ensure_arr_next w1) as Ha2.
  pose proof (ensure_subs w1) as Hs2.
  set (w2 := ensureCanMutateNextListeners w1) in *.
  constructor.
  - unfold push_next. simpl. by rewrite length_alter.
  - unfold push_next. simpl. rewrite Hs2. simpl. intros h l' b Hl.
    apply lookup_app_Some in Hl as [Hl|[_ Hl]]; [by eapply Hf |].
    apply list_lookup_singleton_Some in Hl as [_ [= <- <-]]. done.
  - intros x. unfold push_next.
    change (nextListeners (set_arrays _ w2)) with (nextListeners w2).
    rewrite arr_alter by done. rewrite Ha2.
    change (subs (set_arrays _ w2)) with (subs w2). rewrite Hs2. simpl.
    rewrite count_of_app, active_of_app. simpl.
    change (arr (nextListeners w1) w1) with (arr (nextListeners w) w).
    rewrite Hc. lia.
Qed.

Lemma subscribe_function l w :
  is_function l = true →
  (subscribe l w).1 = Returned (VUnsub (length (subs w))) ∧
  subs (subscribe l w).2 = subs w ++ [(l, true)].
Proof.
  intros Hl. unfold subscribe. rewrite Hl. simpl. split; [done |].
  by rewrite ensure_subs.
Qed.

(** Calling an [unsubscribe] closure for the first time removes the
    first occurrence of its listener, and nothing else. *)
Lemma unsubscribe_active h l w :
  wf w → subs w !! h = Some (l, true) →
  ∃ pre post,
    arr (nextListeners w) w = pre ++ l :: post ∧ count_of l pre = 0 ∧
    (unsubscribe h w).1 = Returned VUndef ∧
    arr (nextListeners (unsubscribe h w).2) (unsubscribe h w).2 = pre ++ post ∧
    nextListeners (unsubscribe h w).2 < length (arrays (unsubscribe h w).2) ∧
    subs (unsubscribe h w).2 = <[h := (l, false)]> (subs w).
Proof.
  intros [Hn Hf Hc] Hh. unfold unsubscribe. rewrite Hh. simpl.
  set (w1 := set_subs (<[h := (l, false)]> (subs w)) w).
  assert (nextListeners w1 < length (arrays w1)) as Hn1 by done.
  pose proof (ensure_next_bound w1 Hn1) as Hn2.
  pose proof (ensure_arr_next w1) as Ha2.
  pose proof (ensure_subs w1) as Hs2.
  set (w2 := ensureCanMutateNextListeners w1) in *.
  change (arr (nextListeners w1) w1) with (arr (nextListeners w) w) in Ha2.
  pose proof (Hf _ _ _ Hh) as Hl.
  pose proof (active_of_positive _ _ _ Hh Hl) as Hpos. rewrite <- Hc in Hpos.
  destruct (indexOf_from_first l _ 0%Z Hpos)
    as (pre & y & post & Hxs & Hy & Hpre & Hidx).
  apply (strict_eq_function _ _ Hl) in Hy. subst y.
  exists pre, post. repeat split; try done.
  - change (nextListeners (set_arrays _ w2)) with (nextListeners w2).
    rewrite arr_alter by done. rewrite Ha2.
    unfold indexOf. by rewrite Hidx, Z.add_0_l, Hxs, splice1_middle.
  - simpl. by rewrite length_alter.
Qed.

Lemma wf_unsubscribe h w : wf w → wf (unsubscribe h w).2.
Proof.
  intros Hw.
  destruct (subs w !! h) as [[l []]|] eqn:Hh;
    [| by unfold unsubscribe; rewrite Hh ..].
  destruct (unsubscribe_active h l w Hw Hh)
    as (pre & post & Hxs & Hpre & _ & Harr & Hn & Hsubs).
  destruct Hw as [_ Hf Hc].
  constructor; [done | |].
  - rewrite Hsubs. intros h' l' b Hl'.
    destruct (decide (h = h')) as [<-|Hne].
    + rewrite list_lookup_insert_eq in Hl' by (by eapply lookup_lt_Some).
      injection Hl' as <- <-. by eapply Hf.
    + rewrite list_lookup_insert_ne in Hl' by done. by eapply Hf.
  - intros x. rewrite Harr, Hsubs.
    pose proof (active_of_insert_off x _ _ _ Hh) as Hact.
    specialize (Hc x). rewrite Hxs, count_of_app in Hc. simpl in Hc.
    rewrite count_of_app. lia.
Qed.

Lemma wf_stable : Stable wf.
Proof.
  constructor; try (by intros ? w [Hn Hf Hc]; constructor).
  - by intros w [Hn Hf Hc]; constructor.
  - apply wf_subscribe.
  - apply wf_unsubscribe.
Qed.

Lemma wf_createStore call gas reducer preloadedState enhancer w store w' :
  preserves wf call → subs w = [] →
  createStore call gas reducer preloadedState enhancer w
  = Built (Returned store, w') →
  wf w'.
Proof.
  intros Hcall Hsubs. unfold createStore.
  destruct (is_function preloadedState && is_undefined enhancer);
    (destruct (negb (is_undefined _)); [by destruct (negb (is_function _)) |]);
    (destruct (negb (is_function reducer)); [done |]); simpl;
    match goal with
    | |- context [dispatch call gas ?a ?w0] =>
        assert (wf w0) as Hw0;
        [ constructor; simpl;
          [ rewrite length_app; simpl; lia
          | rewrite Hsubs; intros h l b H; by destruct h
          | intros x; unfold arr; simpl;
            rewrite lookup_app_r, Nat.sub_diag, Hsubs by done; done ]
        | pose proof (stable_dispatch_full wf wf_stable call gas a w0 Hcall Hw0)
            as Hd; unfold dispatch;
          destruct (dispatch_full call gas a w0) as [[[v|t|] w3] called];
          simpl in *; try done;
          intros [= _ <-]; by apply (st_alloc wf wf_stable) ]
    end.
Qed.

(** ** The snapshot of a notification pass is never written to *)

Lemma snapshot_subscribe ls snap l w :
  snapshot ls snap w → snapshot ls snap (subscribe l w).2.
Proof.
  intros Hs. unfold subscribe. destruct (is_function l); simpl; [|done].
  set (w1 := set_subs (subs w ++ [(l, true)]) w).
  destruct (ensure_snapshot ls snap w1 Hs) as (Hls & Hne & _).
  split; simpl; [|done].
  by rewrite list_lookup_alter_ne.
Qed.

Lemma snapshot_unsubscribe ls snap h w :
  snapshot ls snap w → snapshot ls snap (unsubscribe h w).2.
Proof.
  intros Hs. unfold unsubscribe.
  destruct (subs w !! h) as [[l []]|]; simpl; try done.
  set (w1 := set_subs (<[h := (l, false)]> (subs w)) w).
  destruct (ensure_snapshot ls snap w1 Hs) as (Hls & Hne & _).
  split; simpl; [|done].
  by rewrite list_lookup_alter_ne.
Qed.

Lemma snapshot_stable ls snap : Stable (snapshot ls snap).
Proof.
  constructor; try (by intros ? w [H1 H2]; split).
  - by intros w [H1 H2]; split.
  - intros l w. apply snapshot_subscribe.
  - intros h w. apply snapshot_unsubscribe.
Qed.

(** ** Closures keep what they captured *)

Lemma called_off_stable h l : Stable (called_off h l).
Proof.
  unfold called_off. constructor; try done.
  - intros l' w Hh. unfold subscribe. destruct (is_function l'); simpl; [|done].
    unfold push_next. simpl. rewrite ensure_subs. simpl.
    by rewrite lookup_app_l by (by eapply lookup_lt_Some).
  - intros h' w Hh. unfold unsubscribe.
    destruct (subs w !! h') as [[l' []]|] eqn:Hh'; simpl; try done.
    rewrite ensure_subs. simpl.
    destruct (decide (h' = h)) as [->|Hne]; [congruence |].
    by rewrite list_lookup_insert_ne.
Qed.

Lemma closure_at_stable c rec : Stable (closure_at c rec).
Proof.
  unfold closure_at. constructor; try done.
  - intros l w Hc. unfold subscribe. destruct (is_function l); simpl; [|done].
    unfold push_next, ensureCanMutateNextListeners. simpl.
    by destruct (Nat.eqb _ _).
  - intros h w Hc. unfold unsubscribe.
    destruct (subs w !! h) as [[l' []]|]; simpl; try done.
    unfold ensureCanMutateNextListeners. simpl. by destruct (Nat.eqb _ _).
Qed.

(** ** The reentrancy flag *)

Lemma subscribe_flag l w :
  isDispatching (subscribe l w).2 = isDispatching w ∧
  currentState (subscribe l w).2 = currentState w.
Proof.
  unfold subscribe. destruct (is_function l); simpl; [|done].
  unfold ensureCanMutateNextListeners. simpl. by destruct (Nat.eqb _ _).
Qed.

Lemma unsubscribe_flag h w :
  isDispatching (unsubscribe h w).2 = isDispatching w ∧
  currentState (unsubscribe h w).2 = currentState w.
Proof.
  unfold unsubscribe. destruct (subs w !! h) as [[l []]|]; simpl; try done.
  unfold ensureCanMutateNextListeners. simpl. by destruct (Nat.eqb _ _).
Qed.

Lemma reduce_idle call a w : idle (reduce call a w).2.
Proof. unfold reduce. by destruct (call _ _ _) as [[v|t|] w2]. Qed.

Lemma dispatch_full_idle call gas a w :
  preserves idle call → idle w → idle (dispatch_full call gas a w).1.2.
Proof.
  intros Hcall Hw. unfold dispatch_full.
  destruct (dispatch_guard a w); [done |].
  pose proof (reduce_idle call a w) as Hr.
  destruct (reduce call a w) as [[v|t|] w1]; simpl in *; try done.
  pose proof (notify_loop_preserves idle call gas (nextListeners w1) 0
                (set_currentListeners (nextListeners w1) w1) Hcall Hr) as Hn.
  unfold notify.
  destruct (notify_loop _ _ _ _ _) as [[[v'|t|] w2] called]; done.
Qed.

(** A call made while no reducer runs returns with no reducer running. *)
Lemma invoke_idle code fuel : preserves idle (invoke code fuel).
Proof.
  apply invoke_preserves; try done.
  - intros l w Hw. unfold idle. by rewrite (proj1 (subscribe_flag l w)).
  - intros h w Hw. unfold idle. by rewrite (proj1 (unsubscribe_flag h w)).
  - intros call gas a w. apply dispatch_full_idle.
Qed.

Lemma guard_when_dispatching a w :
  isDispatching w = true → ∃ e, dispatch_guard a w = Some e.
Proof.
  intros H. unfold dispatch_guard. rewrite H.
  destruct (negb (isPlainObject a)); [by eexists |].
  destruct (is_undefined _); by eexists.
Qed.

(** A call made while a reducer runs leaves the flag set and
    [currentState] as it was. *)
Lemma invoke_locked code s fuel : preserves (locked s) (invoke code fuel).
Proof.
  apply invoke_preserves; try done.
  - intros l w [H1 H2]. unfold locked. destruct (subscribe_flag l w) as [-> ->]. done.
  - intros h w [H1 H2]. unfold locked. destruct (unsubscribe_flag h w) as [-> ->]. done.
  - intros call gas a w _ [H1 H2]. unfold dispatch, dispatch_full.
    destruct (guard_when_dispatching a w H1) as [e ->]. done.
Qed.

(** ** The notification loop runs over the snapshot *)

(** If the loop ends normally, the listeners it called are the
    elements of the snapshot from [i] on. *)
Lemma notify_loop_called call gas ls snap i w v w' called :
  preserves (snapshot ls snap) call →
  snapshot ls snap w →
  notify_loop call gas ls i w = (Returned v, w', called) →
  called = drop i snap.
Proof.
  intros Hcall. revert i w called.
  induction gas as [|gas IH]; intros i w called Hs; simpl;
    pose proof Hs as [Hls _]; unfold arr; rewrite Hls; simpl.
  - destruct (snap !! i) eqn:E; [done |]. intros [= _ _ <-].
    symmetry. apply drop_ge. by apply lookup_ge_None.
  - destruct (snap !! i) as [l|] eqn:E.
    + pose proof (Hcall l [] w Hs) as Hs'.
      destruct (call l [] w) as [[x|t|] w1]; simpl in *; try done.
      destruct (notify_loop call gas ls (S i) w1) as [[o w2] called'] eqn:En.
      intros [= -> -> <-].
      rewrite (IH _ _ _ Hs' En). symmetry. by apply drop_S.
    + intros [= _ _ <-]. symmetry. apply drop_ge. by apply lookup_ge_None.
Qed.

(** Whatever the outcome, the listeners called so far are a prefix of
    the snapshot. *)
Lemma notify_loop_prefix call gas ls snap i w :
  preserves (snapshot ls snap) call →
  snapshot ls snap w →
  (notify_loop call gas ls i w).2 `prefix_of` drop i snap.
Proof.
  intros Hcall. revert i w.
  induction gas as [|gas IH]; intros i w Hs; simpl;
    pose proof Hs as [Hls _]; unfold arr; rewrite Hls; simpl.
  - destruct (snap !! i); apply prefix_nil.
  - destruct (snap !! i) as [l|] eqn:E; [|apply prefix_nil].
    pose proof (Hcall l [] w Hs) as Hs'.
    rewrite (drop_S _ _ _ E).
    destruct (call l [] w) as [[x|t|] w1]; simpl in *.
    + specialize (IH (S i) w1 Hs').
      destruct (notify_loop call gas ls (S i) w1) as [[o w2] called']. simpl in *.
      by apply prefix_cons.
    + apply prefix_cons, prefix_nil.
    + apply prefix_cons, prefix_nil.
Qed.

Lemma snapshot_at_swap w :
  nextListeners w < length (arrays w) →
  snapshot (nextListeners w) (arr (nextListeners w) w)
    (set_currentListeners (nextListeners w) w).
Proof.
  intros Hlt. split; [|done]. simpl. unfold arr.
  by destruct (lookup_lt_is_Some_2 _ _ Hlt) as [xs ->].
Qed.

(** The notification pass that starts in [w] calls the listeners held
    by [nextListeners] at that moment, in order. *)
Lemma notify_called code fuel w v w' called :
  nextListeners w < length (arrays w) →
  notify (invoke code fuel) fuel w = (Returned v, w', called) →
  called = arr (nextListeners w) w.
Proof.
  intros Hlt Hn. unfold notify in Hn.
  rewrite <- (drop_0 (arr (nextListeners w) w)).
  eapply notify_loop_called; [| by apply snapshot_at_swap | exact Hn].
  apply stable_invoke, snapshot_stable.
Qed.

(** * The claims *)

Lemma notify_empty call gas w :
  arr (nextListeners w) w = [] →
  notify call gas w = (Returned VUndef, set_currentListeners (nextListeners w) w, []).
Proof.
  intros H. unfold notify.
  assert (arr (nextListeners w) (set_currentListeners (nextListeners w) w) = [])
    as H' by done.
  destruct gas; simpl; by rewrite H'.
Qed.

Lemma dispatch_full_guarded call gas a w e :
  dispatch_guard a w = Some e →
  dispatch_full call gas a w = (Threw (LibError e), w, []).
Proof. intros H. unfold dispatch_full. by rewrite H. Qed.

Lemma guard_passes a w :
  isPlainObject a = true → is_undefined (type_of a) = false → idle w →
  dispatch_guard a w = None.
Proof.
  unfold dispatch_guard, type_of, idle. intros -> -> ->. done.
Qed.

(** C4. A value that is not a plain object makes [dispatch] fail with
    "Actions must be plain objects", a plain object whose [type] is
    undefined makes it fail with "Actions may not have an undefined
    type"; in both cases the world, hence [currentState], is the one
    before the call, and no listener was called. *)
Theorem dispatch_rejects_invalid_action call gas a w :
  isPlainObject a = false ∨ is_undefined (type_of a) = true →
  dispatch_full call gas a w
  = (Threw (LibError (if isPlainObject a then UndefinedActionType
                      else ActionsMustBePlainObjects)), w, []) ∧
  currentState (dispatch call gas a w).2 = currentState w.
Proof.
  intros H.
  assert (dispatch_full call gas a w
          = (Threw (LibError (if isPlainObject a then UndefinedActionType
                              else ActionsMustBePlainObjects)), w, [])) as E.
  { apply dispatch_full_guarded. unfold dispatch_guard, type_of in *.
    destruct (isPlainObject a); simpl; [|done].
    destruct H as [H|H]; [done | by rewrite H]. }
  split; [done |]. unfold dispatch. by rewrite E.
Qed.

Lemma dispatch_rejects_invalid_action_witness :
  dispatch_full (invoke demo_code 3) 3 (VNum 5)
    (world_of (store_create demo_code 3 (VFun 0) VUndef VUndef empty_world))
  = (Threw (LibError ActionsMustBePlainObjects),
     world_of (store_create demo_code 3 (VFun 0) VUndef VUndef empty_world), []) ∧
  dispatch_full (invoke demo_code 3) 3 (VObj 9 true [("payload", VNum 1)])
    (world_of (store_create demo_code 3 (VFun 0) VUndef VUndef empty_world))
  = (Threw (LibError UndefinedActionType),
     world_of (store_create demo_code 3 (VFun 0) VUndef VUndef empty_world), []).
Proof.
  split.
  - apply (dispatch_rejects_invalid_action (invoke demo_code 3) 3 (VNum 5)).
    left. reflexivity.
  - apply (dispatch_rejects_invalid_action (invoke demo_code 3) 3
             (VObj 9 true [("payload", VNum 1)])).
    right. reflexivity.
Defined.

Lemma reduce_returned call a w s w2 :
  call (currentReducer w) [currentState w; a] (set_isDispatching true w)
  = (Returned s, w2) →
  reduce call a w = (Returned s, set_isDispatching false (set_currentState s w2)).
Proof. intros H. unfold reduce. simpl. by rewrite H. Qed.

Lemma reduce_threw call a w t w2 :
  call (currentReducer w) [currentState w; a] (set_isDispatching true w)
  = (Threw t, w2) →
  reduce call a w = (Threw t, set_isDispatching false w2).
Proof. intros H. unfold reduce. simpl. by rewrite H. Qed.

Lemma dispatch_without_listeners call gas a w s w2 :
  dispatch_guard a w = None →
  call (currentReducer w) [currentState w; a] (set_isDispatching true w)
  = (Returned s, w2) →
  arr (nextListeners w2) w2 = [] →
  dispatch_full call gas a w
  = (Returned a,
     set_currentListeners (nextListeners w2)
       (set_isDispatching false (set_currentState s w2)), []).
Proof.
  intros Hg Hcall Hnone. unfold dispatch_full.
  rewrite Hg, (reduce_returned call a w s w2 Hcall).
  by rewrite notify_empty.
Qed.

Lemma arr_fresh (xss : list (list Value)) w :
  arrays w = xss ++ [[]] → arr (length xss) w = [].
Proof.
  intros H. unfold arr. by rewrite H, lookup_app_r, Nat.sub_diag.
Qed.

(** C9. [createStore(counterReducer)] with no preloaded state:
    [currentState] starts undefined, the factory dispatches the INIT
    action and the world it returns is the one that dispatch leaves, in
    which [getState()] answers 0; dispatching [{type: "INC"}] then
    returns that action and leaves 1. *)
Theorem counter_store n w id :
  ∃ store w0 w1,
    store_create demo_code (S n) (VFun 0) VUndef VUndef w = Built (Returned store, w0) ∧
    currentState (initial_store (VFun 0) VUndef w) = VUndef ∧
    w0 = set_nextId (S (S (nextId w)))
           (dispatch (invoke demo_code (S n)) (S n) (action_of (nextId w) INIT)
              (set_nextId (S (nextId w)) (initial_store (VFun 0) VUndef w))).2 ∧
    getState w0 = (Returned (VNum 0), w0) ∧
    store_dispatch demo_code (S n) (action_of id "INC") w0
    = (Returned (action_of id "INC"), w1, []) ∧
    getState w1 = (Returned (VNum 1), w1).
Proof.
  set (start := set_nextId (S (nextId w)) (initial_store (VFun 0) VUndef w)).
  assert (dispatch_full (invoke demo_code (S n)) (S n) (action_of (nextId w) INIT)
            start
          = (Returned (action_of (nextId w) INIT),
             set_currentListeners (nextListeners start)
               (set_isDispatching false
                  (set_currentState (VNum 0) (set_isDispatching true start))), []))
    as Einit.
  { rewrite (dispatch_without_listeners (invoke demo_code (S n)) (S n) _ start
               (VNum 0) (set_isDispatching true start));
      [reflexivity | reflexivity | reflexivity |].
    by apply (arr_fresh (arrays w)). }
  assert (store_create demo_code (S n) (VFun 0) VUndef VUndef w
          = match dispatch (invoke demo_code (S n)) (S n)
                    (action_of (nextId w) INIT) start with
            | (Returned _, w3) =>
                Built (Returned (VObj (nextId w3) true store_fields),
                       set_nextId (S (nextId w3)) w3)
            | r => Built r
            end) as Ecreate by reflexivity.
  unfold dispatch in *. rewrite Einit in Ecreate |- *.
  eexists _, _, _. split; [exact Ecreate |].
  split; [reflexivity |]. split; [reflexivity |]. split; [reflexivity |].
  unfold store_dispatch.
  erewrite (dispatch_without_listeners _ _ _ _ (VNum 1));
    [| reflexivity | reflexivity | by apply (arr_fresh (arrays w))].
  split; reflexivity.
Qed.

Lemma run_locked code fuel s p w :
  locked s w → locked s (run (invoke code fuel) p w).2.
Proof.
  intros Hw. apply run_preserves; try done. apply invoke_locked.
Qed.

(** C10. While the reducer runs inside [dispatch], [currentState] is
    the value from before the dispatch: [getState()] answers it at the
    start of the reducer and after any part [p] of the reducer's body
    has run; the reducer's result is stored only once it has returned,
    and if the reducer raises [currentState] is not assigned. *)
Theorem reducer_sees_previous_state code fuel a w :
  isPlainObject a = true → is_undefined (type_of a) = false → idle w →
  let w1 := set_isDispatching true w in
  getState w1 = (Returned (currentState w), w1) ∧
  (∀ n p m, let w' := (run (invoke code n) p w1).2 in
     invoke code (S m) (VMethod MGetState) [] w' = (Returned (currentState w), w')) ∧
  (∀ s w2,
     invoke code fuel (currentReducer w) [currentState w; a] w1 = (Returned s, w2) →
     currentState w2 = currentState w ∧
     reduce (invoke code fuel) a w
     = (Returned s, set_isDispatching false (set_currentState s w2))) ∧
  (∀ t w2,
     invoke code fuel (currentReducer w) [currentState w; a] w1 = (Threw t, w2) →
     store_dispatch code fuel a w = (Threw t, set_isDispatching false w2, []) ∧
     currentState (set_isDispatching false w2) = currentState w).
Proof.
  intros Hplain Htype Hidle w1.
  assert (locked (currentState w) w1) as Hlock by done.
  split; [done |]. split; [|split].
  - intros n p m w'.
    destruct (run_locked code n _ p w1 Hlock) as [_ Hs]. fold w' in Hs.
    change (invoke code (S m) (VMethod MGetState) [] w')
      with (Returned (currentState w'), w').
    by rewrite Hs.
  - intros s w2 Hcall.
    pose proof (invoke_locked code (currentState w) fuel (currentReducer w)
                  [currentState w; a] w1 Hlock) as Hl.
    rewrite Hcall in Hl. destruct Hl as [_ Hs]. split; [done |].
    by apply reduce_returned.
  - intros t w2 Hcall.
    pose proof (invoke_locked code (currentState w) fuel (currentReducer w)
                  [currentState w; a] w1 Hlock) as Hl.
    rewrite Hcall in Hl. destruct Hl as [_ Hs]. split; [|done].
    unfold store_dispatch, dispatch_full.
    rewrite (guard_passes a w Hplain Htype Hidle).
    by rewrite (reduce_threw _ a w t w2 Hcall).
Qed.

Lemma reducer_sees_previous_state_witness :
  store_dispatch demo_code 3 (action_of 9 "BOOM")
    (world_of (store_create demo_code 3 (VFun 6) (VNum 4) VUndef empty_world))
  = (Threw (UserThrow (VStr "boom")),
     world_of (store_create demo_code 3 (VFun 6) (VNum 4) VUndef empty_world), []) ∧
  currentState
    (world_of (store_create demo_code 3 (VFun 6) (VNum 4) VUndef empty_world))
  = VNum 4.
Proof.
  destruct (reducer_sees_previous_state demo_code 3 (action_of 9 "BOOM")
              (world_of (store_create demo_code 3 (VFun 6) (VNum 4) VUndef
                           empty_world)))
    as (_ & _ & _ & Hraise); [reflexivity | reflexivity | reflexivity |].
  destruct (Hraise (UserThrow (VStr "boom"))
              (set_isDispatching true
                 (world_of (store_create demo_code 3 (VFun 6) (VNum 4) VUndef
                              empty_world))))
    as [Hd Hs]; [reflexivity |].
  split; [exact Hd | exact Hs].
Defined.

(** C3. Inside a running reducer [dispatch] fails with "Reducers may
    not dispatch actions" and changes nothing, so the reducer's code
    goes on with that error in hand; the flag is released however the
    outer dispatch ends, so the next dispatch passes the guards, also
    after a reducer that raised; and when the reducer returns after the
    attempt, the outer dispatch notifies the listeners and returns its
    action. *)
Theorem reentrant_dispatch code fuel a a' w :
  isPlainObject a = true → is_undefined (type_of a) = false →
  isPlainObject a' = true → is_undefined (type_of a') = false →
  idle w →
  let w1 := set_isDispatching true w in
  (∀ n p m k, let w' := (run (invoke code n) p w1).2 in
     invoke code (S m) (VMethod MDispatch) [a'] w'
     = (Threw (LibError ReducersMayNotDispatch), w') ∧
     run (invoke code (S m)) (Call (VMethod MDispatch) [a'] k) w'
     = run (invoke code (S m)) (k (Abrupt (LibError ReducersMayNotDispatch))) w') ∧
  idle (store_dispatch code fuel a w).1.2 ∧
  dispatch_guard a' (store_dispatch code fuel a w).1.2 = None ∧
  (∀ t w2,
     invoke code fuel (currentReducer w) [currentState w; a] w1 = (Threw t, w2) →
     store_dispatch code fuel a w = (Threw t, set_isDispatching false w2, [])) ∧
  (∀ s w2 v w3 called,
     invoke code fuel (currentReducer w) [currentState w; a] w1 = (Returned s, w2) →
     notify (invoke code fuel) fuel (set_isDispatching false (set_currentState s w2))
     = (Returned v, w3, called) →
     store_dispatch code fuel a w = (Returned a, w3, called)).
Proof.
  intros Hplain Htype Hplain' Htype' Hidle w1.
  assert (locked (currentState w) w1) as Hlock by done.
  assert (idle (store_dispatch code fuel a w).1.2) as Hafter.
  { apply dispatch_full_idle; [apply invoke_idle | done]. }
  split; [|split; [done | split; [by apply guard_passes | split]]].
  - intros n p m k w'.
    destruct (run_locked code n _ p w1 Hlock) as [Hflag _]. fold w' in Hflag.
    assert (invoke code (S m) (VMethod MDispatch) [a'] w'
            = (Threw (LibError ReducersMayNotDispatch), w')) as E.
    { simpl. unfold dispatch, dispatch_full, dispatch_guard.
      change (arg 0 [a']) with a'. fold (type_of a').
      by rewrite Hplain', Htype', Hflag. }
    split; [done |]. change (run ?c (Call ?f ?x ?k') ?y)
      with (match c f x y with
            | (Returned v, w'') => run c (k' (Normal v)) w''
            | (Threw t, w'') => run c (k' (Abrupt t)) w''
            | (OutOfFuel, w'') => (OutOfFuel, w'')
            end).
    by rewrite E.
  - intros t w2 Hcall. unfold store_dispatch, dispatch_full.
    rewrite (guard_passes a w Hplain Htype Hidle).
    by rewrite (reduce_threw _ a w t w2 Hcall).
  - intros s w2 v w3 called Hcall Hnotify. unfold store_dispatch, dispatch_full.
    rewrite (guard_passes a w Hplain Htype Hidle).
    by rewrite (reduce_returned _ a w s w2 Hcall), Hnotify.
Qed.

Lemma reentrant_dispatch_witness :
  store_dispatch demo_code 3 (action_of 9 "GO")
    (world_of (store_create demo_code 3 (VFun 5) VUndef VUndef empty_world))
  = (Returned (action_of 9 "GO"),
     world_of (store_create demo_code 3 (VFun 5) VUndef VUndef empty_world), []) ∧
  dispatch_guard (action_of 10 "NEXT")
    (store_dispatch demo_code 3 (action_of 9 "GO")
       (world_of (store_create demo_code 3 (VFun 5) VUndef VUndef empty_world))).1.2
  = None.
Proof.
  destruct (reentrant_dispatch demo_code 3 (action_of 9 "GO") (action_of 10 "NEXT")
              (world_of (store_create demo_code 3 (VFun 5) VUndef VUndef
                           empty_world)))
    as (_ & _ & Hnext & _ & Hdone);
    [reflexivity | reflexivity | reflexivity | reflexivity | reflexivity |].
  split; [|exact Hnext].
  apply (Hdone (VNum 7)
           (set_isDispatching true
              (world_of (store_create demo_code 3 (VFun 5) VUndef VUndef
                           empty_world)))
           VUndef); reflexivity.
Defined.

(** ** Membership and counts *)

Lemma strict_eq_refl x : strict_eq x x = true.
Proof.
  destruct x; simpl; try done.
  - by destruct b.
  - apply Z.eqb_refl.
  - apply String.eqb_refl.
  - apply Nat.eqb_refl.
  - apply Nat.eqb_refl.
  - by destruct m.
  - apply Nat.eqb_refl.
  - apply Nat.eqb_refl.
Qed.

Lemma count_of_elem x xs : x ∈ xs → 0 < count_of x xs.
Proof.
  induction 1 as [y xs|y z xs _ IH]; simpl.
  - rewrite strict_eq_refl. lia.
  - lia.
Qed.

Lemma elem_of_count x xs : is_function x = true → 0 < count_of x xs → x ∈ xs.
Proof.
  intros Hx. induction xs as [|y xs IH]; simpl; [lia |].
  destruct (strict_eq y x) eqn:E.
  - rewrite (strict_eq_function _ _ Hx E). intros _. apply list_elem_of_here.
  - intros H. apply list_elem_of_further, IH. lia.
Qed.

Lemma wf_registered_active w h l :
  wf w → subs w !! h = Some (l, true) → l ∈ registered w.
Proof.
  intros Hw Hh. pose proof (wf_fun w Hw _ _ _ Hh) as Hl.
  apply elem_of_count; [done |]. unfold registered.
  rewrite (wf_count w Hw). by eapply active_of_positive.
Qed.

Lemma wf_registered_none w l :
  wf w → active_of l (subs w) = 0 → l ∉ registered w.
Proof.
  intros Hw Hz Hin. apply count_of_elem in Hin. unfold registered in Hin.
  rewrite (wf_count w Hw) in Hin. lia.
Qed.

(** ** What a dispatch that returns has done *)

Lemma store_dispatch_returned code fuel a w v w' called :
  store_dispatch code fuel a w = (Returned v, w', called) →
  ∃ s x,
    dispatch_guard a w = None ∧
    reduce (invoke code fuel) a w = (Returned s, at_notification code fuel a w) ∧
    notify (invoke code fuel) fuel (at_notification code fuel a w)
    = (Returned x, w', called) ∧ v = a.
Proof.
  unfold store_dispatch, dispatch_full, at_notification.
  destruct (dispatch_guard a w); [done |].
  destruct (reduce (invoke code fuel) a w) as [[s|t|] w1]; simpl; try done.
  destruct (notify (invoke code fuel) fuel w1) as [[[x|t|] w2] c] eqn:En; try done.
  intros [= <- <- <-]. by exists s, x.
Qed.

Lemma wf_at_notification code fuel a w : wf w → wf (at_notification code fuel a w).
Proof.
  intros Hw. unfold at_notification. apply stable_reduce; [apply wf_stable | | done].
  apply stable_invoke, wf_stable.
Qed.

Lemma wf_store_dispatch code fuel a w : wf w → wf (store_dispatch code fuel a w).1.2.
Proof.
  intros Hw. unfold store_dispatch. apply stable_dispatch_full; [apply wf_stable | | done].
  apply stable_invoke, wf_stable.
Qed.

Lemma store_dispatch_called code fuel a w v w' called :
  wf w →
  store_dispatch code fuel a w = (Returned v, w', called) →
  called = registered (at_notification code fuel a w).
Proof.
  intros Hw Hd.
  destruct (store_dispatch_returned _ _ _ _ _ _ _ Hd) as (s & x & _ & _ & Hn & _).
  eapply notify_called; [|exact Hn].
  apply wf_next, wf_at_notification, Hw.
Qed.

Lemma store_dispatch_prefix code fuel a w :
  wf w →
  (store_dispatch code fuel a w).2
    `prefix_of` registered (at_notification code fuel a w).
Proof.
  intros Hw. unfold store_dispatch, dispatch_full.
  destruct (dispatch_guard a w); [apply prefix_nil |].
  pose proof (wf_at_notification code fuel a w Hw) as Hw1.
  unfold at_notification in *.
  destruct (reduce (invoke code fuel) a w) as [[s|t|] w1]; simpl in *;
    try apply prefix_nil.
  pose proof (notify_loop_prefix (invoke code fuel) fuel (nextListeners w1)
                (arr (nextListeners w1) w1) 0
                (set_currentListeners (nextListeners w1) w1)
                (stable_invoke _ (snapshot_stable _ _) code fuel)
                (snapshot_at_swap w1 (wf_next w1 Hw1))) as Hp.
  rewrite drop_0 in Hp. unfold notify.
  by destruct (notify_loop _ _ _ _ _) as [[[v|t|] w2] called].
Qed.

(** C1, amended.  The listeners a dispatch calls are, in order, the
    first of those registered when its reducer returned, that is when
    its notification pass began, and all of them when the dispatch
    returns, whatever the listeners subscribed or unsubscribed
    meanwhile; those changes are seen by the next dispatch, whose pass
    runs over the registrations it finds in turn.  When the reducer
    leaves the registrations alone, these are the listeners registered
    before the dispatch began. *)
Theorem dispatch_notifies_snapshot code fuel a w :
  wf w →
  (store_dispatch code fuel a w).2
    `prefix_of` registered (at_notification code fuel a w) ∧
  (∀ v w' called,
     store_dispatch code fuel a w = (Returned v, w', called) →
     called = registered (at_notification code fuel a w) ∧
     (registered (at_notification code fuel a w) = registered w →
      called = registered w) ∧
     (∀ fuel2 a2 v2 w2 called2,
        store_dispatch code fuel2 a2 w' = (Returned v2, w2, called2) →
        called2 = registered (at_notification code fuel2 a2 w'))).
Proof.
  intros Hw. split; [by apply store_dispatch_prefix |].
  intros v w' called Hd.
  pose proof (store_dispatch_called _ _ _ _ _ _ _ Hw Hd) as Hc.
  assert (wf w') as Hw'.
  { pose proof (wf_store_dispatch code fuel a w Hw) as H. by rewrite Hd in H. }
  split; [done |]. split; [congruence |].
  intros fuel2 a2 v2 w2 called2 Hd2. by eapply store_dispatch_called.
Qed.

Lemma wf_created_with_counter : wf (created_with (VFun 0)).
Proof. wf_compute. Qed.

Lemma wf_created_with_subscriber : wf (created_with (VFun 4)).
Proof. wf_compute. Qed.

Lemma wf_two_listeners : wf two_listeners.
Proof. wf_compute. Qed.

Lemma dispatch_notifies_snapshot_witness :
  wf (created_with (VFun 4)) ∧
  [VFun 3]
  = registered (at_notification demo_code 4 (action_of 9 "SUB") (created_with (VFun 4))).
Proof.
  split; [exact wf_created_with_subscriber |].
  assert (store_dispatch demo_code 4 (action_of 9 "SUB") (created_with (VFun 4))
          = (Returned (action_of 9 "SUB"),
             (store_dispatch demo_code 4 (action_of 9 "SUB")
                (created_with (VFun 4))).1.2, [VFun 3])) as Hd
    by (vm_compute; reflexivity).
  exact (proj1 (proj2 (dispatch_notifies_snapshot demo_code 4 (action_of 9 "SUB")
                         (created_with (VFun 4)) wf_created_with_subscriber)
                  _ _ [VFun 3] Hd)).
Defined.

(** C1 as worded fails: a reducer that subscribes a listener has it
    called by the very dispatch it runs in, though nothing was
    registered when that dispatch began. *)
Lemma notified_are_registered_before_dispatch_fails :
  registered (created_with (VFun 4)) = [] ∧
  (store_dispatch demo_code 4 (action_of 9 "SUB") (created_with (VFun 4))).2
  = [VFun 3] ∧
  ¬ notified_are_registered_before_dispatch.
Proof.
  split; [reflexivity |]. split; [vm_compute; reflexivity |].
  intros H.
  assert (store_dispatch demo_code 4 (action_of 9 "SUB") (created_with (VFun 4))
          = (Returned (action_of 9 "SUB"),
             (store_dispatch demo_code 4 (action_of 9 "SUB")
                (created_with (VFun 4))).1.2, [VFun 3])) as Hd
    by (vm_compute; reflexivity).
  pose proof (proj1 (H _ _ _ _ _ _ _ wf_created_with_subscriber eq_refl Hd (VFun 3))
                (list_elem_of_here _ _)) as Hin.
  vm_compute in Hin. inversion Hin.
Qed.

(** C2. Take a dispatch N and a later dispatch N+1 that both return.
    A listener with no registration when the pass of N began, and
    subscribed by closure [h] while that pass ran, is not called by N;
    it is called by N+1 if [h] is still subscribed when the pass of N+1
    begins.  A listener registered when the pass of N began and
    unsubscribed while it ran is still called by N; it is not called by
    N+1 if no registration of it is left when the pass of N+1 begins. *)
Theorem listeners_changed_while_notifying
    code fuel a w v w' called fuel2 a2 w'' v2 w2 called2 :
  wf w →
  store_dispatch code fuel a w = (Returned v, w', called) →
  evolves code w' w'' →
  store_dispatch code fuel2 a2 w'' = (Returned v2, w2, called2) →
  let start := at_notification code fuel a w in
  let start2 := at_notification code fuel2 a2 w'' in
  (∀ L h,
     active_of L (subs start) = 0 →
     length (subs start) ≤ h < length (subs w') →
     subs start2 !! h = Some (L, true) →
     (L ∉ called) ∧ L ∈ called2) ∧
  (∀ L h,
     subs start !! h = Some (L, true) →
     subs w' !! h = Some (L, false) →
     active_of L (subs start2) = 0 →
     L ∈ called ∧ (L ∉ called2)).
Proof.
  intros Hw Hd Hev Hd2 start start2.
  pose proof (store_dispatch_called _ _ _ _ _ _ _ Hw Hd) as ->.
  assert (wf w') as Hw'.
  { pose proof (wf_store_dispatch code fuel a w Hw) as H. by rewrite Hd in H. }
  pose proof (stable_evolves wf wf_stable code w' w'' Hev Hw') as Hw''.
  pose proof (store_dispatch_called _ _ _ _ _ _ _ Hw'' Hd2) as ->.
  pose proof (wf_at_notification code fuel a w Hw) as Hs.
  pose proof (wf_at_notification code fuel2 a2 w'' Hw'') as Hs2.
  fold start in Hs |- *. fold start2 in Hs2 |- *.
  split.
  - intros L h Hnone _ Hh. split.
    + by apply wf_registered_none.
    + by eapply wf_registered_active.
  - intros L h Hh _ Hnone. split.
    + by eapply wf_registered_active.
    + by apply wf_registered_none.
Qed.

Lemma listeners_changed_while_notifying_witness :
  ((VFun 3 ∉ (store_dispatch demo_code 4 (action_of 9 "INC") two_listeners).2) ∧
   VFun 3 ∈ (store_dispatch demo_code 4 (action_of 10 "INC")
               (store_dispatch demo_code 4 (action_of 9 "INC") two_listeners).1.2).2) ∧
  (VFun 2 ∈ (store_dispatch demo_code 4 (action_of 9 "INC") two_listeners).2 ∧
   (VFun 2 ∉ (store_dispatch demo_code 4 (action_of 10 "INC")
                (store_dispatch demo_code 4 (action_of 9 "INC") two_listeners).1.2).2)).
Proof.
  destruct (listeners_changed_while_notifying demo_code
              4 (action_of 9 "INC") two_listeners (action_of 9 "INC")
              (store_dispatch demo_code 4 (action_of 9 "INC") two_listeners).1.2
              (store_dispatch demo_code 4 (action_of 9 "INC") two_listeners).2
              4 (action_of 10 "INC")
              (store_dispatch demo_code 4 (action_of 9 "INC") two_listeners).1.2
              (action_of 10 "INC")
              (store_dispatch demo_code 4 (action_of 10 "INC")
                 (store_dispatch demo_code 4 (action_of 9 "INC") two_listeners).1.2).1.2
              (store_dispatch demo_code 4 (action_of 10 "INC")
                 (store_dispatch demo_code 4 (action_of 9 "INC") two_listeners).1.2).2
              wf_two_listeners)
    as [Hsub Hunsub].
  - vm_compute. reflexivity.
  - apply evolves_refl.
  - vm_compute. reflexivity.
  - split.
    + apply (Hsub (VFun 3) 2); [reflexivity | vm_compute; lia | reflexivity].
    + apply (Hunsub (VFun 2) 1); reflexivity.
Defined.

(** C7. The first call of an [unsubscribe] closure removes one
    registration of its listener, the first in the list, and leaves
    every other element in place; any later call, whatever happened to
    the store meanwhile, changes nothing.  After subscribing a listener
    twice, calling either of the two closures leaves one of the two
    registrations. *)
Theorem unsubscribe_once code h l w :
  wf w → subs w !! h = Some (l, true) →
  let w1 := (unsubscribe h w).2 in
  (∃ pre post,
     registered w = pre ++ l :: post ∧ (l ∉ pre) ∧ registered w1 = pre ++ post) ∧
  (∀ w2, evolves code w1 w2 → unsubscribe h w2 = (Returned VUndef, w2)) ∧
  (let wa := (subscribe l w).2 in
   let wb := (subscribe l wa).2 in
   (subscribe l w).1 = Returned (VUnsub (length (subs w))) ∧
   (subscribe l wa).1 = Returned (VUnsub (S (length (subs w)))) ∧
   ∀ g, g = length (subs w) ∨ g = S (length (subs w)) →
     count_of l (registered (unsubscribe g wb).2) = S (count_of l (registered w))).
Proof.
  intros Hw Hh w1.
  pose proof (wf_fun w Hw _ _ _ Hh) as Hl.
  destruct (unsubscribe_active h l w Hw Hh)
    as (pre & post & Hxs & Hpre & _ & Harr & _ & Hsubs).
  split; [|split].
  - exists pre, post. unfold registered. repeat split; try done.
    intros Hin. apply count_of_elem in Hin. lia.
  - intros w2 Hev.
    assert (called_off h l w1) as Hoff.
    { unfold called_off, w1. rewrite Hsubs.
      apply list_lookup_insert_eq. by eapply lookup_lt_Some. }
    pose proof (stable_evolves _ (called_off_stable h l) code w1 w2 Hev Hoff) as H2.
    unfold unsubscribe. by rewrite H2.
  - intros wa wb.
    destruct (subscribe_function l w Hl) as [Hr1 Hs1].
    destruct (subscribe_function l wa Hl) as [Hr2 Hs2].
    fold wa in Hs1. fold wb in Hs2.
    split; [done |]. split.
    { rewrite Hr2, Hs1, length_app. simpl. by rewrite Nat.add_1_r. }
    pose proof (wf_subscribe l w Hw) as Hwa. fold wa in Hwa.
    pose proof (wf_subscribe l wa Hwa) as Hwb. fold wb in Hwb.
    intros g Hg.
    assert (subs wb !! g = Some (l, true)) as Hg'.
    { rewrite Hs2, Hs1. destruct Hg as [-> | ->].
      - rewrite lookup_app_l by (rewrite length_app; simpl; lia).
        by rewrite lookup_app_r, Nat.sub_diag.
      - rewrite lookup_app_r by (rewrite length_app; simpl; lia).
        rewrite length_app. simpl.
        replace (S (length (subs w)) - (length (subs w) + 1)) with 0 by lia. done. }
    destruct (unsubscribe_active g l wb Hwb Hg')
      as (pre' & post' & Hxs' & _ & _ & Harr' & _ & _).
    unfold registered. rewrite Harr'.
    pose proof (wf_count wb Hwb l) as Hcb. rewrite Hxs', Hs2, Hs1 in Hcb.
    rewrite !active_of_app, count_of_app in Hcb. simpl in Hcb.
    rewrite (strict_eq_function_refl l Hl) in Hcb. simpl in Hcb.
    rewrite count_of_app, (wf_count w Hw l). lia.
Qed.

Lemma unsubscribe_once_witness :
  wf two_listeners ∧
  subs two_listeners !! 0 = Some (VFun 1, true) ∧
  unsubscribe 0
    (invoke demo_code 2 (VMethod MSubscribe) [VFun 1] (unsubscribe 0 two_listeners).2).2
  = (Returned VUndef,
     (invoke demo_code 2 (VMethod MSubscribe) [VFun 1] (unsubscribe 0 two_listeners).2).2).
Proof.
  split; [exact wf_two_listeners |]. split; [reflexivity |].
  destruct (unsubscribe_once demo_code 0 (VFun 1) two_listeners wf_two_listeners
              eq_refl)
    as (_ & Hlater & _).
  apply Hlater. apply evolves_call, evolves_refl.
Defined.

(** ** Listeners that leave the state alone *)

Lemma notify_loop_keeps_state call gas ls snap s i w :
  (∀ l w', l ∈ snap → currentState w' = s → currentState (call l [] w').2 = s) →
  preserves (snapshot ls snap) call →
  snapshot ls snap w → currentState w = s →
  currentState (notify_loop call gas ls i w).1.2 = s.
Proof.
  intros Hquiet Hcall. revert i w.
  induction gas as [|gas IH]; intros i w Hs Hst; simpl;
    pose proof Hs as [Hls _]; unfold arr; rewrite Hls; simpl.
  - by destruct (snap !! i).
  - destruct (snap !! i) as [l|] eqn:E; [|done].
    pose proof (Hcall l [] w Hs) as Hs'.
    pose proof (Hquiet l w (list_elem_of_lookup_2 _ _ _ E) Hst) as Hst'.
    destruct (call l [] w) as [[x|t|] w1]; simpl in *; try done.
    specialize (IH (S i) w1 Hs' Hst').
    by destruct (notify_loop call gas ls (S i) w1) as [[o w2] called'].
Qed.

Lemma notify_keeps_state code fuel s w :
  nextListeners w < length (arrays w) →
  (∀ l w', l ∈ registered w → currentState w' = s →
     currentState (invoke code fuel l [] w').2 = s) →
  currentState w = s →
  currentState (notify (invoke code fuel) fuel w).1.2 = s.
Proof.
  intros Hlt Hquiet Hst. unfold notify.
  eapply notify_loop_keeps_state; [exact Hquiet | | by apply snapshot_at_swap | done].
  apply stable_invoke, snapshot_stable.
Qed.

(** C8. [replaceReducer] refuses a value that is not a function and
    changes nothing.  Given a function, it makes it the current reducer
    and dispatches INIT itself: the reducer is applied to the previous
    state and the INIT action, and its result [s] is what [getState()]
    answers when [replaceReducer] is back, the listeners notified in
    between having left the state alone; [replaceReducer] returns
    [undefined] when they all return. *)
Theorem replaceReducer_rederives_state code fuel r w :
  (is_function r = false →
   store_replaceReducer code fuel r w
   = (Threw (LibError ExpectedNextReducerFunction), w)) ∧
  (is_function r = true → wf w → idle w →
   ∀ s w2,
     invoke code fuel r [currentState w; action_of (nextId w) INIT]
       (set_isDispatching true (set_nextId (S (nextId w)) (set_currentReducer r w)))
     = (Returned s, w2) →
     (∀ l w', l ∈ registered w2 → currentState w' = s →
        currentState (invoke code fuel l [] w').2 = s) →
     getState (store_replaceReducer code fuel r w).2
     = (Returned s, (store_replaceReducer code fuel r w).2) ∧
     (∀ v x called,
        notify (invoke code fuel) fuel (set_isDispatching false (set_currentState s w2))
        = (Returned v, x, called) →
        store_replaceReducer code fuel r w = (Returned VUndef, x))).
Proof.
  split.
  - intros Hr. unfold store_replaceReducer, replaceReducer. by rewrite Hr.
  - intros Hr Hw Hidle s w2 Hcall Hquiet.
    set (w3 := set_isDispatching false (set_currentState s w2)).
    assert (store_replaceReducer code fuel r w
            = (match (notify (invoke code fuel) fuel w3).1.1 with
               | Returned _ => Returned VUndef
               | o => o
               end, (notify (invoke code fuel) fuel w3).1.2)) as E.
    { unfold store_replaceReducer, replaceReducer. rewrite Hr. simpl.
      unfold dispatch, dispatch_full.
      rewrite guard_passes by done.
      erewrite reduce_returned by exact Hcall. fold w3.
      by destruct (notify (invoke code fuel) fuel w3) as [[[v|t|] x] called]. }
    assert (wf w3) as Hw3.
    { assert (wf w2) as Hw2.
      { pose proof (stable_invoke wf wf_stable code fuel r
                      [currentState w; action_of (nextId w) INIT] _
                      (st_flag wf wf_stable true _
                         (st_alloc wf wf_stable (S (nextId w)) _
                            (st_reducer wf wf_stable r w Hw)))) as H.
        by rewrite Hcall in H. }
      by apply (st_flag wf wf_stable), (st_state wf wf_stable). }
    split.
    + rewrite E. simpl. unfold getState. f_equal. f_equal.
      by apply notify_keeps_state; [apply (wf_next w3 Hw3) | |].
    + intros v x called Hn. rewrite E, Hn. done.
Qed.

Lemma wf_one_listener : wf one_listener.
Proof. wf_compute. Qed.

Lemma replaceReducer_rederives_state_witness :
  store_replaceReducer demo_code 4 (VNum 1) one_listener
  = (Threw (LibError ExpectedNextReducerFunction), one_listener) ∧
  getState (store_replaceReducer demo_code 4 (VFun 5) one_listener).2
  = (Returned (VNum 7), (store_replaceReducer demo_code 4 (VFun 5) one_listener).2).
Proof.
  split.
  - exact (proj1 (replaceReducer_rederives_state demo_code 4 (VNum 1) one_listener)
             eq_refl).
  - assert (invoke demo_code 4 (VFun 5)
              [currentState one_listener; action_of (nextId one_listener) INIT]
              (set_isDispatching true
                 (set_nextId (S (nextId one_listener))
                    (set_currentReducer (VFun 5) one_listener)))
            = (Returned (VNum 7),
               set_isDispatching true
                 (set_nextId (S (nextId one_listener))
                    (set_currentReducer (VFun 5) one_listener)))) as Hcall
      by (vm_compute; reflexivity).
    refine (proj1 (proj2 (replaceReducer_rederives_state demo_code 4 (VFun 5)
                            one_listener)
                     eq_refl wf_one_listener eq_refl (VNum 7) _ Hcall _)).
    intros l w' Hl Hs. vm_compute in Hl.
    apply elem_of_cons in Hl as [-> | Hl]; [exact Hs | inversion Hl].
Defined.

(** ** The loop of the combined reducer *)

Lemma obj_set_fresh key v (fields : list (string * Value)) :
  key ∉ map fst fields → obj_set key v fields = fields ++ [(key, v)].
Proof.
  induction fields as [|[k x] fields IH]; simpl; [done |].
  intros Hnot. apply not_elem_of_cons in Hnot as [Hne Hnot].
  destruct (String.eqb_spec k key) as [->|_]; [done |].
  by rewrite IH.
Qed.

Lemma obj_set_keys key v (fields : list (string * Value)) k :
  k ∈ map fst (obj_set key v fields) → k = key ∨ k ∈ map fst fields.
Proof.
  induction fields as [|[k' x] fields IH]; simpl.
  - intros Hin. apply list_elem_of_singleton in Hin. by left.
  - destruct (String.eqb_spec k' key) as [->|_]; simpl; intros Hin.
    + by right.
    + apply elem_of_cons in Hin as [->|Hin]; [right; apply list_elem_of_here |].
      destruct (IH Hin) as [->|Hk]; [by left | right; by apply list_elem_of_further].
Qed.

Lemma obj_set_NoDup key v (fields : list (string * Value)) :
  NoDup (map fst fields) → NoDup (map fst (obj_set key v fields)).
Proof.
  induction fields as [|[k x] fields IH]; simpl; intros Hnd.
  - apply NoDup_singleton.
  - apply NoDup_cons in Hnd as [Hk Hnd].
    destruct (String.eqb_spec k key) as [->|Hne]; simpl.
    + by apply NoDup_cons.
    + apply NoDup_cons. split; [|by apply IH].
      intros Hin. destruct (obj_set_keys _ _ _ _ Hin) as [->|Hin']; done.
Qed.

(** The keys of the closure [combineReducers] makes are distinct, as
    those of an object are. *)
Lemma final_reducers_NoDup reducers keys acc :
  NoDup (map fst acc) → NoDup (map fst (final_reducers reducers keys acc)).
Proof.
  revert acc. induction keys as [|key keys IH]; simpl; intros acc Hnd; [done |].
  apply IH. destruct (is_function _); [by apply obj_set_NoDup | done].
Qed.

Lemma combination_loop_slices call finals state action keys w out w' :
  slices call finals state action keys w out w' →
  ∀ changed acc,
    NoDup keys → (∀ k, k ∈ keys → k ∉ map fst acc) →
    combination_loop call finals state action keys changed acc w
    = (inl (changed || negb (forallb (slice_same state) out), acc ++ out), w').
Proof.
  induction 1 as [w|key keys prev next w w1 out w2 Hprev Hcall Hdef _ IH];
    intros changed acc Hnd Hfresh; simpl.
  - by rewrite orb_false_r, app_nil_r.
  - rewrite Hprev, Hcall, Hdef.
    apply NoDup_cons in Hnd as [Hkey Hnd].
    rewrite obj_set_fresh by (apply Hfresh, list_elem_of_here).
    rewrite IH; [| done |].
    + unfold slice_same at 2. simpl. rewrite Hprev.
      rewrite <- app_assoc. simpl.
      by destruct changed, (strict_eq next prev), (forallb _ out).
    + intros k Hk. rewrite map_app. simpl.
      intros Hin. apply elem_of_app in Hin as [Hin|Hin].
      * by apply (Hfresh k (list_elem_of_further _ _ _ Hk)).
      * apply list_elem_of_singleton in Hin. by subst.
Qed.

(** C5, amended.  When the slice reducers return the defined values
    [out]: if each is [===] to the slice it was given, the combined
    reducer returns the very state it read, which is the state it was
    passed unless that is [undefined], for which the default parameter
    has allocated an empty object; otherwise it returns a new object
    holding, for every slice key, the new value. *)
Theorem combination_keeps_reference call c finals sanity state action w out w' :
  combos w !! c = Some (finals, sanity) →
  sanity_raises sanity = false →
  NoDup (map fst finals) →
  slices call finals (default_state state w).1 action (map fst finals)
    (alloc true [] (default_state state w).2).2 out w' →
  combination call c state action w
  = (Returned (if forallb (slice_same (default_state state w).1) out
               then (default_state state w).1
               else VObj (nextId (default_state state w).2) true out), w') ∧
  (is_undefined state = false → (default_state state w).1 = state) ∧
  (is_undefined state = true →
   (default_state state w).1 = VObj (nextId w) true []).
Proof.
  intros Hc Hsan Hnd Hsl. split; [|split].
  - unfold combination. rewrite Hc.
    destruct (default_state state w) as [state0 w0]. simpl in *.
    rewrite Hsan.
    rewrite (combination_loop_slices _ _ _ _ _ _ _ _ Hsl false [] Hnd).
    + simpl. by destruct (forallb _ out).
    + intros k _ Hin. inversion Hin.
  - intros Hu. unfold default_state. by rewrite Hu.
  - intros Hu. unfold default_state. by rewrite Hu.
Qed.

Lemma combination_keeps_reference_witness :
  combination (invoke demo_code 4) 1
    (VObj 50 true [("count", VNum 1); ("flag", VBool false)]) (action_of 9 "NOOP")
    two_slices
  = (Returned (VObj 50 true [("count", VNum 1); ("flag", VBool false)]),
     set_nextId (S (nextId two_slices)) two_slices) ∧
  combination (invoke demo_code 4) 1
    (VObj 50 true [("count", VNum 1); ("flag", VBool false)]) (action_of 9 "TOGGLE")
    two_slices
  = (Returned (VObj (nextId two_slices) true
                 [("count", VNum 1); ("flag", VBool true)]),
     set_nextId (S (nextId two_slices)) two_slices).
Proof.
  split.
  - refine (proj1 (combination_keeps_reference (invoke demo_code 4) 1
                     [("count", VFun 0); ("flag", VFun 8)] None
                     (VObj 50 true [("count", VNum 1); ("flag", VBool false)])
                     (action_of 9 "NOOP") two_slices
                     [("count", VNum 1); ("flag", VBool false)]
                     (set_nextId (S (nextId two_slices)) two_slices)
                     eq_refl eq_refl _ _)).
    + apply (bool_decide_unpack _). vm_compute. reflexivity.
    + repeat (econstructor; try reflexivity).
  - refine (proj1 (combination_keeps_reference (invoke demo_code 4) 1
                     [("count", VFun 0); ("flag", VFun 8)] None
                     (VObj 50 true [("count", VNum 1); ("flag", VBool false)])
                     (action_of 9 "TOGGLE") two_slices
                     [("count", VNum 1); ("flag", VBool true)]
                     (set_nextId (S (nextId two_slices)) two_slices)
                     eq_refl eq_refl _ _)).
    + apply (bool_decide_unpack _). vm_compute. reflexivity.
    + repeat (econstructor; try reflexivity).
Defined.

(** C5 as worded fails for [combineReducers({})] called with
    [undefined]: no slice changes, and the result is the fresh empty
    object of the default parameter, not the [undefined] passed. *)
Lemma unchanged_slices_return_the_argument_fails :
  (combination (invoke demo_code 4) 0 VUndef (action_of 9 "NOOP") no_slices).1
  = Returned (VObj 0 true []) ∧
  ¬ unchanged_slices_return_the_argument.
Proof.
  split; [vm_compute; reflexivity |].
  intros H.
  specialize (H (invoke demo_code 4) 0 [] VUndef (action_of 9 "NOOP") no_slices []
                (alloc true [] (default_state VUndef no_slices).2).2
                eq_refl (NoDup_nil_2 : NoDup (map fst ([] : list (string * Value))))
                (slices_nil _ _ _ _ _) eq_refl).
  vm_compute in H. discriminate H.
Qed.

(** ** The deferred sanity error *)

Lemma assertReducerSanity_fault random_suffix call reducers keys w e w' :
  sanity_fault random_suffix call reducers keys w e w' →
  assertReducerSanity random_suffix call reducers keys w = (Threw (LibError e), w').
Proof.
  induction 1 as [key rest w v w2 Hinit Hv
                 |key rest w v w2 p w5 Hinit Hv Hprobe Hp
                 |key rest w v w2 p w5 e w' Hinit Hv Hprobe Hp _ IH];
    cbn [assertReducerSanity alloc]; fold (action_of (nextId w) INIT);
    rewrite Hinit, Hv; [done | |];
    change (nextId (set_seed (S (seed w2)) w2)) with (nextId w2);
    fold (action_of (nextId w2) (probe_type random_suffix w2));
    rewrite Hprobe, Hp; done.
Qed.

Lemma sanity_fault_key random_suffix call reducers keys w e w' :
  sanity_fault random_suffix call reducers keys w e w' →
  ∃ key, key ∈ keys ∧ (e = UndefinedDuringInit key ∨ e = UndefinedOnProbe key).
Proof.
  induction 1 as [key rest w v w2 Hinit Hv
                 |key rest w v w2 p w5 Hinit Hv Hprobe Hp
                 |key rest w v w2 p w5 e w' Hinit Hv Hprobe Hp _ IH].
  - exists key. split; [apply list_elem_of_here | by left].
  - exists key. split; [apply list_elem_of_here | by right].
  - destruct IH as (k & Hk & He). exists k. split; [by apply list_elem_of_further | done].
Qed.

Lemma combination_raises call c finals e state action w :
  combos w !! c = Some (finals, Some (LibError e)) →
  (combination call c state action w).1 = Threw (LibError e).
Proof.
  intros Hc. unfold combination. rewrite Hc.
  by destruct (default_state state w).
Qed.

(** C6. When the probing of the surviving reducers meets one that
    returns [undefined], [combineReducers] still returns a combined
    reducer; the error naming that key is kept in the closure, and every
    call of the combined reducer, the first and all later ones, raises
    that same error. *)
Theorem sanity_error_is_deferred code random_suffix call reducers w e w1 :
  sanity_fault random_suffix call
    (final_reducers reducers (map fst reducers) [])
    (map fst (final_reducers reducers (map fst reducers) [])) w e w1 →
  combineReducers random_suffix call reducers w
  = (Returned (VComb (length (combos w1))),
     set_combos
       (combos w1 ++
        [(final_reducers reducers (map fst reducers) [], Some (LibError e))]) w1) ∧
  (∃ key,
     key ∈ map fst (final_reducers reducers (map fst reducers) []) ∧
     (e = UndefinedDuringInit key ∨ e = UndefinedOnProbe key)) ∧
  (∀ w2 fuel state action,
     evolves code (combineReducers random_suffix call reducers w).2 w2 →
     (invoke code (S fuel) (VComb (length (combos w1))) [state; action] w2).1
     = Threw (LibError e)).
Proof.
  intros Hfault.
  assert (combineReducers random_suffix call reducers w
          = (Returned (VComb (length (combos w1))),
             set_combos
               (combos w1 ++
                [(final_reducers reducers (map fst reducers) [],
                  Some (LibError e))]) w1)) as E.
  { unfold combineReducers.
    by rewrite (assertReducerSanity_fault _ _ _ _ _ _ _ Hfault). }
  split; [done |]. split; [by eapply sanity_fault_key |].
  intros w2 fuel state action Hev. rewrite E in Hev. simpl in Hev.
  assert (closure_at (length (combos w1))
            (final_reducers reducers (map fst reducers) [], Some (LibError e)) w2)
    as Hc.
  { eapply stable_evolves; [apply closure_at_stable | exact Hev |].
    unfold closure_at. simpl. by rewrite lookup_app_r, Nat.sub_diag. }
  change (invoke code (S fuel) (VComb ?c) [state; action] w2)
    with (combination (invoke code fuel) c state action w2).
  by eapply combination_raises.
Qed.

Lemma sanity_error_is_deferred_witness :
  combineReducers demo_suffix (invoke demo_code 4)
    [("count", VFun 0); ("bad", VFun 7); ("named", VFun 9)] empty_world
  = (Returned (VComb 0),
     (combineReducers demo_suffix (invoke demo_code 4)
        [("count", VFun 0); ("bad", VFun 7); ("named", VFun 9)] empty_world).2) ∧
  (invoke demo_code 3 (VComb 0) [VUndef; action_of 9 "INC"]
     (invoke demo_code 3 (VComb 0) [VUndef; action_of 8 "INC"]
        (combineReducers demo_suffix (invoke demo_code 4)
           [("count", VFun 0); ("bad", VFun 7); ("named", VFun 9)] empty_world).2).2).1
  = Threw (LibError (UndefinedDuringInit "bad")) ∧
  (invoke demo_code 3 (VComb 0) [VUndef; action_of 9 "INC"]
     (combineReducers demo_suffix (invoke demo_code 4)
        [("named", VFun 9)] empty_world).2).1
  = Threw (LibError (UndefinedOnProbe "named")).
Proof.
  assert (sanity_fault demo_suffix (invoke demo_code 4)
            (final_reducers [("count", VFun 0); ("bad", VFun 7); ("named", VFun 9)]
               (map fst [("count", VFun 0); ("bad", VFun 7); ("named", VFun 9)]) [])
            (map fst
               (final_reducers
                  [("count", VFun 0); ("bad", VFun 7); ("named", VFun 9)]
                  (map fst [("count", VFun 0); ("bad", VFun 7); ("named", VFun 9)])
                  []))
            empty_world (UndefinedDuringInit "bad")
            (set_nextId 3 (set_seed 1 empty_world))) as Hbad.
  { eapply fault_later; [reflexivity | reflexivity | reflexivity | reflexivity |].
    eapply fault_init; reflexivity. }
  assert (sanity_fault demo_suffix (invoke demo_code 4)
            (final_reducers [("named", VFun 9)] (map fst [("named", VFun 9)]) [])
            (map fst
               (final_reducers [("named", VFun 9)] (map fst [("named", VFun 9)]) []))
            empty_world (UndefinedOnProbe "named")
            (set_nextId 2 (set_seed 1 empty_world))) as Hnamed.
  { eapply fault_probe; reflexivity. }
  destruct (sanity_error_is_deferred demo_code _ _ _ _ _ _ Hbad) as (E & _ & Hall).
  destruct (sanity_error_is_deferred demo_code _ _ _ _ _ _ Hnamed) as (_ & _ & Hall').
  split; [|split].
  - rewrite E. reflexivity.
  - apply (Hall _ 2 VUndef (action_of 9 "INC")).
    apply evolves_call, evolves_refl.
  - apply (Hall' _ 2 VUndef (action_of 9 "INC")). apply evolves_refl.
Defined.

(** * The examples of the specification, run on the model *)

Example combined_store_initial :
  currentState combined_store
  = VObj 6 true [("count", VNum 0); ("flag", VBool false)].
Proof. vm_compute. reflexivity. Qed.

Example combined_store_inc_then_toggle :
  let w1 := (store_dispatch demo_code 4 (action_of 20 "INC") combined_store).1.2 in
  let w2 := (store_dispatch demo_code 4 (action_of 21 "TOGGLE") w1).1.2 in
  currentState w1 = VObj 8 true [("count", VNum 1); ("flag", VBool false)] ∧
  currentState w2 = VObj 9 true [("count", VNum 1); ("flag", VBool true)].
Proof. vm_compute. split; reflexivity. Qed.

Example undefined_slice_is_fatal :
  (invoke demo_code 4 (VComb 0)
     [VObj 50 true [("count", VNum 1); ("drop", VNum 2)]; action_of 20 "DROP"]
     (combineReducers demo_suffix (invoke demo_code 4)
        [("count", VFun 0); ("drop", VFun 10)] empty_world).2).1
  = Threw (LibError (ReducerReturnedUndefined "drop" (VStr "DROP"))).
Proof. vm_compute. reflexivity. Qed.

Example unsubscribe_twice :
  let w1 := (unsubscribe 1 two_listeners).2 in
  registered two_listeners = [VFun 1; VFun 2] ∧
  registered w1 = [VFun 1] ∧
  unsubscribe 1 w1 = (Returned VUndef, w1).
Proof. vm_compute. repeat split; reflexivity. Qed.

Example enhancer_is_delegated :
  store_create demo_code 4 (VFun 0) (VFun 11) VUndef empty_world
  = Delegated (VFun 11) (VFun 0) VUndef.
Proof. reflexivity. Qed.

(** * Further properties of the store engine *)

Lemma ensure_when_forked w :
  nextListeners w ≠ currentListeners w → ensureCanMutateNextListeners w = w.
Proof.
  intros Hne. unfold ensureCanMutateNextListeners.
  by destruct (Nat.eqb_spec (nextListeners w) (currentListeners w)).
Qed.

Lemma ensure_current w :
  nextListeners w < length (arrays w) →
  currentListeners (ensureCanMutateNextListeners w) = currentListeners w ∧
  nextListeners (ensureCanMutateNextListeners w) ≠ currentListeners w ∧
  arrays (ensureCanMutateNextListeners w) !! currentListeners w
  = arrays w !! currentListeners w ∧
  (length (arrays (ensureCanMutateNextListeners w)) ≤ S (length (arrays w)))%nat.
Proof.
  intros Hn. unfold ensureCanMutateNextListeners.
  destruct (Nat.eqb_spec (nextListeners w) (currentListeners w)) as [E|E]; simpl.
  - repeat split; [lia | | rewrite length_app; simpl; lia].
    apply lookup_app_l. lia.
  - repeat split; [done | lia].
Qed.

Lemma subscribe_effect l w :
  is_function l = true → nextListeners w < length (arrays w) →
  (subscribe l w).1 = Returned (VUnsub (length (subs w))) ∧
  registered (subscribe l w).2 = registered w ++ [l] ∧
  currentListeners (subscribe l w).2 = currentListeners w ∧
  arr (currentListeners w) (subscribe l w).2 = arr (currentListeners w) w ∧
  nextListeners (subscribe l w).2 ≠ currentListeners (subscribe l w).2.
Proof.
  intros Hl Hn. unfold subscribe. rewrite Hl. simpl.
  set (w1 := set_subs (subs w ++ [(l, true)]) w).
  assert (nextListeners w1 < length (arrays w1)) as Hn1 by done.
  destruct (ensure_current w1 Hn1) as (Hcur & Hne & Hkeep & _).
  pose proof (ensure_next_bound w1 Hn1) as Hn2.
  pose proof (ensure_arr_next w1) as Ha2.
  set (w2 := ensureCanMutateNextListeners w1) in *.
  change (currentListeners w1) with (currentListeners w) in *.
  split; [done |]. split; [|split; [done | split; [|by rewrite Hcur]]].
  - unfold registered, push_next.
    change (nextListeners (set_arrays _ w2)) with (nextListeners w2).
    rewrite arr_alter by done. by rewrite Ha2.
  - unfold arr, push_next. simpl.
    rewrite list_lookup_alter_ne by done. by rewrite Hkeep.
Qed.

(** X1. [subscribe] refuses a listener that is not a function and
    changes nothing.  Given a function, it returns a new closure and adds
    the listener at the end of the registered ones; the array
    [currentListeners] points to is not touched, and afterwards
    [nextListeners] is an array of its own. *)
Theorem subscribe_appends l w :
  (is_function l = false →
   subscribe l w = (Threw (LibError ExpectedListenerFunction), w)) ∧
  (is_function l = true → nextListeners w < length (arrays w) →
   (subscribe l w).1 = Returned (VUnsub (length (subs w))) ∧
   registered (subscribe l w).2 = registered w ++ [l] ∧
   currentListeners (subscribe l w).2 = currentListeners w ∧
   arr (currentListeners w) (subscribe l w).2 = arr (currentListeners w) w ∧
   nextListeners (subscribe l w).2 ≠ currentListeners (subscribe l w).2).
Proof.
  split.
  - intros Hl. unfold subscribe. by rewrite Hl.
  - apply subscribe_effect.
Qed.

Lemma subscribe_appends_witness :
  registered (subscribe (VFun 3) two_listeners).2 = [VFun 1; VFun 2; VFun 3] ∧
  arr (currentListeners two_listeners) (subscribe (VFun 3) two_listeners).2 = [].
Proof.
  destruct (proj2 (subscribe_appends (VFun 3) two_listeners) eq_refl)
    as (_ & Hreg & _ & Hcur & _).
  - vm_compute. lia.
  - split; [exact Hreg | exact Hcur].
Defined.

(** X2. Once [nextListeners] is an array of its own, which the first
    [subscribe] after a dispatch makes it, further subscriptions and
    unsubscriptions write to that array and allocate no other. *)
Theorem second_mutation_does_not_fork l w :
  is_function l = true → nextListeners w < length (arrays w) →
  let w1 := (subscribe l w).2 in
  (length (arrays w1) ≤ S (length (arrays w)))%nat ∧
  (∀ l', length (arrays (subscribe l' w1).2) = length (arrays w1) ∧
         nextListeners (subscribe l' w1).2 = nextListeners w1) ∧
  (∀ h, length (arrays (unsubscribe h w1).2) = length (arrays w1) ∧
        nextListeners (unsubscribe h w1).2 = nextListeners w1).
Proof.
  intros Hl Hn w1.
  destruct (subscribe_effect l w Hl Hn) as (_ & _ & _ & _ & Hne).
  fold w1 in Hne. split; [|split].
  - unfold w1, subscribe. rewrite Hl. simpl. rewrite length_alter.
    by destruct (ensure_current (set_subs (subs w ++ [(l, true)]) w) Hn)
      as (_ & _ & _ & Hlen).
  - intros l'. unfold subscribe. destruct (is_function l'); simpl; [|done].
    rewrite ensure_when_forked by done. simpl. by rewrite length_alter.
  - intros h. unfold unsubscribe.
    destruct (subs w1 !! h) as [[l' []]|]; simpl; try done.
    rewrite ensure_when_forked by done. simpl. by rewrite length_alter.
Qed.

Lemma second_mutation_does_not_fork_witness :
  length (arrays (subscribe (VFun 2) (subscribe (VFun 3) (created_with (VFun 0))).2).2)
  = length (arrays (subscribe (VFun 3) (created_with (VFun 0))).2).
Proof.
  destruct (second_mutation_does_not_fork (VFun 3) (created_with (VFun 0)) eq_refl)
    as (_ & Hsub & _).
  - vm_compute. lia.
  - exact (proj1 (Hsub (VFun 2))).
Defined.

(** X3. An array of the heap that is not a private [nextListeners],
    such as the one a notification pass runs over or any array that
    [currentListeners] points to, is never written again, whatever is
    called afterwards. *)
Theorem settled_arrays_are_frozen code ls snap w w' :
  arrays w !! ls = Some snap →
  (nextListeners w = ls → currentListeners w = ls) →
  evolves code w w' →
  arrays w' !! ls = Some snap.
Proof.
  intros Hls Himp Hev.
  assert (snapshot ls snap w) as Hs by done.
  by destruct (stable_evolves _ (snapshot_stable ls snap) code w w' Hev Hs).
Qed.

Lemma settled_arrays_are_frozen_witness :
  arrays
    (invoke demo_code 2 (VUnsub 0) []
       (invoke demo_code 2 (VMethod MSubscribe) [VFun 3]
          (store_dispatch demo_code 4 (action_of 9 "INC") two_listeners).1.2).2).2
  !! 1
  = Some [VFun 1; VFun 2].
Proof.
  apply (settled_arrays_are_frozen demo_code 1 [VFun 1; VFun 2]
           (store_dispatch demo_code 4 (action_of 9 "INC") two_listeners).1.2).
  - vm_compute. reflexivity.
  - vm_compute. discriminate.
  - apply evolves_call, evolves_call, evolves_refl.
Defined.

Lemma first_occurrence_unique (l : Value) pre post pre' post' :
  pre ++ l :: post = pre' ++ l :: post' → l ∉ pre → l ∉ pre' →
  pre = pre' ∧ post = post'.
Proof.
  revert pre'. induction pre as [|x pre IH]; intros [|x' pre'] E Hn Hn'; simpl in E.
  - by injection E.
  - injection E as -> _. exfalso. apply Hn', list_elem_of_here.
  - injection E as -> _. exfalso. apply Hn, list_elem_of_here.
  - injection E as -> E.
    apply not_elem_of_cons in Hn as [_ Hn]. apply not_elem_of_cons in Hn' as [_ Hn'].
    destruct (IH pre' E Hn Hn') as [-> ->]. done.
Qed.

Lemma count_zero_not_elem x xs : count_of x xs = 0 → x ∉ xs.
Proof. intros Hz Hin. apply count_of_elem in Hin. lia. Qed.

(** X4. Subscribing a listener and calling the closure returned gives
    back the registered listeners up to their order: exactly the same
    list when the listener was not registered before; otherwise the
    call removes the earlier registration, and the listener is left at
    the end of the list. *)
Theorem subscribe_then_unsubscribe l w :
  wf w → is_function l = true →
  let w1 := (subscribe l w).2 in
  let w2 := (unsubscribe (length (subs w)) w1).2 in
  registered w2 ≡ₚ registered w ∧
  ((l ∉ registered w) → registered w2 = registered w) ∧
  (∀ pre post,
     registered w = pre ++ l :: post → (l ∉ pre) →
     registered w2 = pre ++ post ++ [l]).
Proof.
  intros Hw Hl w1 w2.
  destruct (subscribe_effect l w Hl (wf_next w Hw)) as (_ & Hreg & _).
  destruct (subscribe_function l w Hl) as [_ Hsubs].
  pose proof (wf_subscribe l w Hw) as Hw1. fold w1 in Hreg, Hsubs, Hw1.
  assert (subs w1 !! length (subs w) = Some (l, true)) as Hh.
  { by rewrite Hsubs, lookup_app_r, Nat.sub_diag. }
  destruct (unsubscribe_active _ l w1 Hw1 Hh)
    as (pre' & post' & Hxs' & Hpre' & _ & Harr' & _ & _).
  fold w2 in Harr'. fold (registered w1) in Hxs'. fold (registered w2) in Harr'.
  rewrite Hreg in Hxs'. apply count_zero_not_elem in Hpre'.
  assert (∀ pre post,
            registered w = pre ++ l :: post → (l ∉ pre) →
            registered w2 = pre ++ post ++ [l]) as Hmove.
  { intros pre post Hxs Hpre. rewrite Hxs, <- app_assoc in Hxs'. simpl in Hxs'.
    destruct (first_occurrence_unique _ _ _ _ _ Hxs' Hpre Hpre') as [<- <-].
    by rewrite Harr'. }
  assert ((l ∉ registered w) → registered w2 = registered w) as Hsame.
  { intros Hnot.
    destruct (first_occurrence_unique _ _ _ _ _ Hxs' Hnot Hpre') as [<- <-].
    by rewrite Harr', app_nil_r. }
  split; [|done].
  destruct (count_of l (registered w)) as [|n] eqn:Hcount.
  - rewrite Hsame; [done | by apply count_zero_not_elem].
  - destruct (indexOf_from_first l (registered w) 0%Z)
      as (pre & y & post & Hxs & Hy & Hpre & _); [lia |].
    apply (strict_eq_function _ _ Hl) in Hy. subst y.
    rewrite (Hmove pre post Hxs (count_zero_not_elem _ _ Hpre)), Hxs.
    apply Permutation_app_head. symmetry. apply Permutation_cons_append.
Qed.

Lemma subscribe_then_unsubscribe_witness :
  registered
    (unsubscribe (length (subs two_listeners))
       (subscribe (VFun 1) two_listeners).2).2
  = [] ++ [VFun 2] ++ [VFun 1].
Proof.
  destruct (subscribe_then_unsubscribe (VFun 1) two_listeners wf_two_listeners
              eq_refl) as (_ & _ & Hmove).
  apply Hmove; [reflexivity |]. apply not_elem_of_nil.
Defined.

Lemma indexOf_found x xs : 0 < count_of x xs → (0 ≤ indexOf xs x)%Z.
Proof.
  intros Hpos. unfold indexOf.
  destruct (indexOf_from_first x xs 0%Z Hpos) as (pre & y & post & _ & _ & _ & ->).
  lia.
Qed.

(** X5. In every world of a created store, a listener is registered
    as many times as it has closures not yet called; so [indexOf]
    finds the listener of every such closure, and [splice] is never
    given -1. *)
Theorem registrations_match_subscriptions
    code fuel reducer preloadedState enhancer w store w0 w' :
  subs w = [] →
  store_create code fuel reducer preloadedState enhancer w
  = Built (Returned store, w0) →
  evolves code w0 w' →
  (∀ x, count_of x (registered w') = active_of x (subs w')) ∧
  (∀ h l, subs w' !! h = Some (l, true) → (0 ≤ indexOf (registered w') l)%Z).
Proof.
  intros Hsubs Hcreate Hev.
  assert (wf w0) as Hw0.
  { eapply wf_createStore; [| exact Hsubs | exact Hcreate].
    apply stable_invoke, wf_stable. }
  pose proof (stable_evolves wf wf_stable code w0 w' Hev Hw0) as Hw'.
  split; [apply (wf_count w' Hw') |].
  intros h l Hh. apply indexOf_found. unfold registered.
  rewrite (wf_count w' Hw').
  eapply active_of_positive; [exact Hh | by eapply (wf_fun w' Hw')].
Qed.

Lemma registrations_match_subscriptions_witness :
  (0 ≤ indexOf
         (registered
            (invoke demo_code 2 (VMethod MSubscribe) [VFun 3]
               (world_of (store_create demo_code 4 (VFun 0) VUndef VUndef
                            empty_world))).2)
         (VFun 3))%Z.
Proof.
  assert (store_create demo_code 4 (VFun 0) VUndef VUndef empty_world
          = Built (Returned (VObj 1 true store_fields),
                   world_of (store_create demo_code 4 (VFun 0) VUndef VUndef
                               empty_world))) as Hcreate
    by (vm_compute; reflexivity).
  assert (subs
            (invoke demo_code 2 (VMethod MSubscribe) [VFun 3]
               (world_of (store_create demo_code 4 (VFun 0) VUndef VUndef
                            empty_world))).2
          !! 0 = Some (VFun 3, true)) as Hh by (vm_compute; reflexivity).
  exact (proj2 (registrations_match_subscriptions demo_code 4 (VFun 0) VUndef VUndef
                  empty_world _ _ _ eq_refl Hcreate
                  (evolves_call demo_code _ _ 2 (VMethod MSubscribe) [VFun 3]
                     (evolves_refl demo_code _)))
           0 (VFun 3) Hh).
Defined.

Lemma notify_loop_threw call gas ls i w t w' called :
  notify_loop call gas ls i w = (Threw t, w', called) →
  ∃ pre l w_l, called = pre ++ [l] ∧ call l [] w_l = (Threw t, w').
Proof.
  revert i w called. induction gas as [|gas IH]; intros i w called; simpl.
  - by destruct (arr ls w !! i).
  - destruct (arr ls w !! i) as [l|]; [|done].
    destruct (call l [] w) as [[x|t0|] w1] eqn:Hcall; simpl; try done.
    + destruct (notify_loop call gas ls (S i) w1) as [[o w2] called'] eqn:En.
      intros [= -> -> <-].
      destruct (IH _ _ _ En) as (pre & l' & w_l & -> & Hl').
      by exists (l :: pre), l', w_l.
    + intros [= -> -> <-]. by exists [], l, w.
Qed.

Lemma wf_failing_listener : wf failing_listener.
Proof. wf_compute. Qed.

(** X6. When [dispatch] fails after it has called listeners, the
    error is the one raised by the last listener called, the listeners
    registered after it are not called, and the state the reducer
    returned has been assigned: nothing is rolled back. *)
Theorem listener_failure code fuel a w t w' called :
  wf w →
  store_dispatch code fuel a w = (Threw t, w', called) →
  called ≠ [] →
  (∃ s, reduce (invoke code fuel) a w = (Returned s, at_notification code fuel a w) ∧
        currentState (at_notification code fuel a w) = s) ∧
  called `prefix_of` registered (at_notification code fuel a w) ∧
  (∃ pre l w_l, called = pre ++ [l] ∧ invoke code fuel l [] w_l = (Threw t, w')).
Proof.
  intros Hw Hd Hne.
  pose proof (store_dispatch_prefix code fuel a w Hw) as Hp. rewrite Hd in Hp.
  split; [|split; [done |]];
    unfold store_dispatch, dispatch_full, at_notification in *;
    (destruct (dispatch_guard a w); [by injection Hd as _ _ <- |]);
    unfold reduce in *;
    destruct (invoke code fuel _ _ (set_isDispatching true w)) as [[s|t0|] w2];
    simpl in *; try (by injection Hd as _ _ <-).
  - by exists s.
  - unfold notify in Hd.
    destruct (notify_loop _ _ _ _ _) as [[[v|t1|] w3] called'] eqn:En; try done.
    injection Hd as -> -> ->. by eapply notify_loop_threw.
Qed.

Lemma listener_failure_witness :
  currentState (at_notification more_code 4 (action_of 9 "INC") failing_listener)
  = VNum 1 ∧
  [VFun 21]
    `prefix_of` registered
                  (at_notification more_code 4 (action_of 9 "INC") failing_listener).
Proof.
  assert (store_dispatch more_code 4 (action_of 9 "INC") failing_listener
          = (Threw (UserThrow (VStr "listener failed")),
             (store_dispatch more_code 4 (action_of 9 "INC") failing_listener).1.2,
             [VFun 21])) as Hd by (vm_compute; reflexivity).
  destruct (listener_failure more_code 4 (action_of 9 "INC") failing_listener _ _ _
              wf_failing_listener Hd) as ((s & Hr & Hs) & Hp & _); [done |].
  split; [|exact Hp].
  rewrite Hs. vm_compute in Hr. by injection Hr as <-.
Defined.

Lemma notify_loop_when_idle call gas ls i w :
  preserves idle call → idle w →
  notify_loop (when_idle call) gas ls i w = notify_loop call gas ls i w.
Proof.
  intros Hcall. revert i w. induction gas as [|gas IH]; intros i w Hw; simpl; [done |].
  destruct (arr ls w !! i) as [l|]; [|done].
  unfold when_idle at 1. rewrite Hw.
  pose proof (Hcall l [] w Hw) as Hw'.
  destruct (call l [] w) as [[x|t|] w1]; simpl in *; try done.
  by rewrite IH.
Qed.

(** X7. Every listener is called while [isDispatching] is false: a
    caller that refuses to run anything while the flag is set notifies
    exactly as the real one does.  A listener may therefore dispatch. *)
Theorem listeners_run_idle code fuel w :
  idle w →
  notify (when_idle (invoke code fuel)) fuel w = notify (invoke code fuel) fuel w.
Proof.
  intros Hw. unfold notify.
  apply notify_loop_when_idle; [apply invoke_idle | done].
Qed.

Lemma listeners_run_idle_witness :
  notify (when_idle (invoke more_code 4)) 4 dispatching_listener
  = notify (invoke more_code 4) 4 dispatching_listener ∧
  currentState
    (store_dispatch more_code 4 (action_of 9 "INC") dispatching_listener).1.2
  = VNum 2.
Proof.
  split.
  - apply (listeners_run_idle more_code 4 dispatching_listener). reflexivity.
  - vm_compute. reflexivity.
Defined.

(** X8. [replaceReducer] called while a reducer is running fails with
    "Reducers may not dispatch actions", but only after it has installed
    the new reducer: the state is untouched and the reducer is
    replaced. *)
Theorem replaceReducer_while_dispatching call gas r w :
  isDispatching w = true → is_function r = true →
  replaceReducer call gas r w
  = (Threw (LibError ReducersMayNotDispatch),
     set_nextId (S (nextId w)) (set_currentReducer r w)) ∧
  currentReducer (replaceReducer call gas r w).2 = r ∧
  currentState (replaceReducer call gas r w).2 = currentState w.
Proof.
  intros Hflag Hr.
  assert (replaceReducer call gas r w
          = (Threw (LibError ReducersMayNotDispatch),
             set_nextId (S (nextId w)) (set_currentReducer r w))) as E.
  { unfold replaceReducer. rewrite Hr. simpl.
    unfold dispatch, dispatch_full, dispatch_guard. simpl. by rewrite Hflag. }
  rewrite E. done.
Qed.

Lemma replaceReducer_while_dispatching_witness :
  currentReducer
    (replaceReducer (invoke demo_code 4) 4 (VFun 8)
       (set_isDispatching true (created_with (VFun 0)))).2
  = VFun 8.
Proof.
  apply (replaceReducer_while_dispatching (invoke demo_code 4) 4 (VFun 8)
           (set_isDispatching true (created_with (VFun 0))));
    reflexivity.
Defined.

(** X9. When the new reducer raises on the INIT action,
    [replaceReducer] raises the same error with the flag released and
    the state as it was. *)
Theorem replaceReducer_reducer_raises code fuel r w t w2 :
  idle w → is_function r = true →
  invoke code fuel r [currentState w; action_of (nextId w) INIT]
    (set_isDispatching true (set_nextId (S (nextId w)) (set_currentReducer r w)))
  = (Threw t, w2) →
  store_replaceReducer code fuel r w = (Threw t, set_isDispatching false w2) ∧
  currentState (store_replaceReducer code fuel r w).2 = currentState w ∧
  idle (store_replaceReducer code fuel r w).2.
Proof.
  intros Hidle Hr Hcall.
  assert (store_replaceReducer code fuel r w = (Threw t, set_isDispatching false w2))
    as E.
  { unfold store_replaceReducer, replaceReducer. rewrite Hr. simpl.
    unfold dispatch, dispatch_full. rewrite guard_passes by done.
    by erewrite reduce_threw by exact Hcall. }
  rewrite E. split; [done |]. split; [|done]. simpl.
  pose proof (invoke_locked code (currentState w) fuel r
                [currentState w; action_of (nextId w) INIT]
                (set_isDispatching true
                   (set_nextId (S (nextId w)) (set_currentReducer r w)))) as Hl.
  rewrite Hcall in Hl. by destruct Hl.
Qed.

Lemma replaceReducer_reducer_raises_witness :
  currentState (store_replaceReducer more_code 4 (VFun 21) (created_with (VFun 0))).2
  = VNum 0.
Proof.
  apply (replaceReducer_reducer_raises more_code 4 (VFun 21) (created_with (VFun 0))
           (UserThrow (VStr "listener failed"))
           (set_isDispatching true
              (set_nextId (S (nextId (created_with (VFun 0))))
                 (set_currentReducer (VFun 21) (created_with (VFun 0))))));
    reflexivity.
Defined.

(** X10. The arguments of [createStore]: a function given as second
    argument with no third is taken as the enhancer, with no preloaded
    state; an enhancer is checked before the reducer, and when it is a
    function the result is whatever it makes, whatever the reducer is;
    the two errors leave the world as it was. *)
Theorem createStore_validates call gas reducer preloadedState enhancer w :
  (is_function preloadedState = true → is_undefined enhancer = true →
   createStore call gas reducer preloadedState enhancer w
   = Delegated preloadedState reducer VUndef) ∧
  (is_undefined enhancer = false → is_function enhancer = true →
   createStore call gas reducer preloadedState enhancer w
   = Delegated enhancer reducer preloadedState) ∧
  (is_undefined enhancer = false → is_function enhancer = false →
   createStore call gas reducer preloadedState enhancer w
   = Built (Threw (LibError ExpectedEnhancerFunction), w)) ∧
  (is_undefined enhancer = true → is_function preloadedState = false →
   is_function reducer = false →
   createStore call gas reducer preloadedState enhancer w
   = Built (Threw (LibError ExpectedReducerFunction), w)).
Proof.
  unfold createStore. repeat split.
  - intros Hp He. rewrite Hp, He. simpl.
    destruct preloadedState; try discriminate; reflexivity.
  - intros He Hf. rewrite He, andb_false_r. simpl. rewrite He, Hf. reflexivity.
  - intros He Hf. rewrite He, andb_false_r. simpl. rewrite He, Hf. reflexivity.
  - intros He Hp Hr. rewrite He, Hp, Hr. simpl. by rewrite He.
Qed.

Lemma createStore_validates_witness :
  createStore (invoke demo_code 4) 4 (VNum 3) (VFun 11) VUndef empty_world
  = Delegated (VFun 11) (VNum 3) VUndef ∧
  createStore (invoke demo_code 4) 4 (VNum 3) VUndef (VStr "enhance") empty_world
  = Built (Threw (LibError ExpectedEnhancerFunction), empty_world) ∧
  createStore (invoke demo_code 4) 4 (VNum 3) (VNum 0) VUndef empty_world
  = Built (Threw (LibError ExpectedReducerFunction), empty_world).
Proof.
  split; [|split].
  - apply (proj1 (createStore_validates (invoke demo_code 4) 4 (VNum 3) (VFun 11)
                    VUndef empty_world)); reflexivity.
  - apply (proj1 (proj2 (proj2 (createStore_validates (invoke demo_code 4) 4
                                  (VNum 3) VUndef (VStr "enhance") empty_world))));
      reflexivity.
  - apply (proj2 (proj2 (proj2 (createStore_validates (invoke demo_code 4) 4
                                  (VNum 3) (VNum 0) VUndef empty_world))));
      reflexivity.
Defined.

(** X11. [createStore(reducer, preloadedState)]: the reducer is called
    once, with the preloaded state and the INIT action.  If it returns
    [s] and has subscribed nothing, the store returned has the four
    methods and [getState()] answers [s]; if it raises, [createStore]
    raises the same error and returns no store. *)
Theorem createStore_seeds_state call gas reducer preloadedState w :
  is_function reducer = true → is_function preloadedState = false →
  (∀ s w2,
     call reducer [preloadedState; action_of (nextId w) INIT]
       (set_isDispatching true
          (set_nextId (S (nextId w)) (initial_store reducer preloadedState w)))
     = (Returned s, w2) →
     arr (nextListeners w2) w2 = [] →
     ∃ w0,
       createStore call gas reducer preloadedState VUndef w
       = Built (Returned (VObj (nextId w2) true store_fields), w0) ∧
       getState w0 = (Returned s, w0) ∧ idle w0 ∧ registered w0 = []) ∧
  (∀ t w2,
     call reducer [preloadedState; action_of (nextId w) INIT]
       (set_isDispatching true
          (set_nextId (S (nextId w)) (initial_store reducer preloadedState w)))
     = (Threw t, w2) →
     createStore call gas reducer preloadedState VUndef w
     = Built (Threw t, set_isDispatching false w2)).
Proof.
  intros Hr Hp.
  assert (createStore call gas reducer preloadedState VUndef w
          = match dispatch call gas (action_of (nextId w) INIT)
                    (set_nextId (S (nextId w))
                       (initial_store reducer preloadedState w)) with
            | (Returned _, w3) =>
                Built (Returned (VObj (nextId w3) true store_fields),
                       set_nextId (S (nextId w3)) w3)
            | r => Built r
            end) as E.
  { unfold createStore. rewrite Hp, Hr. reflexivity. }
  split.
  - intros s w2 Hcall Hnone. rewrite E. unfold dispatch.
    rewrite (dispatch_without_listeners call gas _ _ s w2); [| done | exact Hcall | done].
    simpl. eexists. split; [reflexivity |]. repeat split. exact Hnone.
  - intros t w2 Hcall. rewrite E. unfold dispatch, dispatch_full.
    rewrite guard_passes by done.
    by rewrite (reduce_threw call (action_of (nextId w) INIT)
                  (set_nextId (S (nextId w)) (initial_store reducer preloadedState w))
                  t w2 Hcall).
Qed.

Lemma createStore_seeds_state_witness :
  ∃ w0,
    createStore (invoke demo_code 4) 4 (VFun 0) (VNum 41) VUndef empty_world
    = Built (Returned (VObj 1 true store_fields), w0) ∧
    getState w0 = (Returned (VNum 41), w0) ∧ idle w0 ∧ registered w0 = [].
Proof.
  apply (proj1 (createStore_seeds_state (invoke demo_code 4) 4 (VFun 0) (VNum 41)
                  empty_world eq_refl eq_refl)
           (VNum 41)
           (set_isDispatching true
              (set_nextId 1 (initial_store (VFun 0) (VNum 41) empty_world))));
    reflexivity.
Defined.

(** ** The reducer of a store is a function *)

Lemma subscribe_reducer l w : currentReducer (subscribe l w).2 = currentReducer w.
Proof.
  unfold subscribe. destruct (is_function l); simpl; [|done].
  unfold ensureCanMutateNextListeners. simpl. by destruct (Nat.eqb _ _).
Qed.

Lemma unsubscribe_reducer h w : currentReducer (unsubscribe h w).2 = currentReducer w.
Proof.
  unfold unsubscribe. destruct (subs w !! h) as [[l []]|]; simpl; try done.
  unfold ensureCanMutateNextListeners. simpl. by destruct (Nat.eqb _ _).
Qed.

Lemma dispatch_reducer_is_function call gas a w :
  preserves reducer_is_function call → reducer_is_function w →
  reducer_is_function (dispatch call gas a w).2.
Proof.
  intros Hcall Hw. unfold dispatch, dispatch_full.
  destruct (dispatch_guard a w); [done |].
  assert (reducer_is_function (reduce call a w).2) as Hr.
  { unfold reduce.
    pose proof (Hcall (currentReducer (set_isDispatching true w))
                  [currentState (set_isDispatching true w); a]
                  (set_isDispatching true w) Hw) as H.
    by destruct (call _ _ _) as [[v|t|] w2]. }
  destruct (reduce call a w) as [[v|t|] w1]; simpl in *; try done.
  pose proof (notify_loop_preserves reducer_is_function call gas (nextListeners w1) 0
                (set_currentListeners (nextListeners w1) w1) Hcall Hr) as Hn.
  unfold notify. by destruct (notify_loop _ _ _ _ _) as [[[v'|t|] w2] called].
Qed.

Lemma invoke_reducer_is_function code fuel :
  preserves reducer_is_function (invoke code fuel).
Proof.
  induction fuel as [|n IH]; intros f args w Hw; simpl; [done |].
  destruct f as [| | | | | | id | [] | h | c]; try done.
  - by apply run_preserves.
  - by apply dispatch_reducer_is_function.
  - unfold reducer_is_function. by rewrite subscribe_reducer.
  - unfold replaceReducer. destruct (is_function (arg 0 args)) eqn:Hr; simpl; [|done].
    pose proof (dispatch_reducer_is_function (invoke code n) n
                  (VObj (nextId w) true [("type", VStr INIT)])
                  (set_nextId (S (nextId w)) (set_currentReducer (arg 0 args) w))
                  IH Hr) as Hd.
    by destruct (dispatch _ _ _ _) as [[v|t|] w3].
  - unfold reducer_is_function. by rewrite unsubscribe_reducer.
  - by apply combination_preserves.
Qed.

Lemma createStore_returned call gas reducer preloadedState enhancer w store w0 :
  createStore call gas reducer preloadedState enhancer w
  = Built (Returned store, w0) →
  ∃ p v w3,
    is_function reducer = true ∧
    dispatch call gas (action_of (nextId w) INIT)
      (set_nextId (S (nextId w)) (initial_store reducer p w)) = (Returned v, w3) ∧
    w0 = set_nextId (S (nextId w3)) w3.
Proof.
  unfold createStore.
  destruct (is_function preloadedState && is_undefined enhancer);
    (destruct (negb (is_undefined _)); [by destruct (negb (is_function _)) |]);
    (destruct (is_function reducer); [|done]);
    cbv beta iota zeta delta [negb alloc];
    match goal with
    | |- context [dispatch call gas ?a (set_nextId _ (initial_store reducer ?p w))] =>
        destruct (dispatch call gas a (set_nextId _ (initial_store reducer p w)))
          as [[v|t|] w3] eqn:Hd; try done;
        intros [= _ <-]; by exists p, v, w3
    end.
Qed.

(** X12. In every world of a created store the current reducer is a
    function: [createStore] and [replaceReducer] let no other value in,
    so [dispatch] never calls something that cannot be called. *)
Theorem reducer_stays_function
    code fuel reducer preloadedState enhancer w store w0 w' :
  store_create code fuel reducer preloadedState enhancer w
  = Built (Returned store, w0) →
  evolves code w0 w' →
  is_function (currentReducer w') = true.
Proof.
  intros Hcreate Hev.
  assert (reducer_is_function w0) as Hw0.
  { apply createStore_returned in Hcreate as (p & v & w3 & Hr & Hd & ->).
    pose proof (dispatch_reducer_is_function (invoke code fuel) fuel
                  (action_of (nextId w) INIT)
                  (set_nextId (S (nextId w)) (initial_store reducer p w))
                  (invoke_reducer_is_function code fuel) Hr) as H.
    by rewrite Hd in H. }
  clear Hcreate. induction Hev as [|w1 fuel' f args _ IH]; [done |].
  by apply invoke_reducer_is_function.
Qed.

Lemma reducer_stays_function_witness :
  is_function
    (currentReducer
       (invoke demo_code 4 (VMethod MReplaceReducer) [VFun 8]
          (world_of (store_create demo_code 4 (VFun 0) VUndef VUndef empty_world))).2)
  = true.
Proof.
  assert (store_create demo_code 4 (VFun 0) VUndef VUndef empty_world
          = Built (Returned (VObj 1 true store_fields),
                   world_of (store_create demo_code 4 (VFun 0) VUndef VUndef
                               empty_world))) as E
    by (vm_compute; reflexivity).
  exact (reducer_stays_function demo_code 4 (VFun 0) VUndef VUndef empty_world
           (VObj 1 true store_fields) _ _ E
           (evolves_call _ _ _ 4 (VMethod MReplaceReducer) [VFun 8] (evolves_refl _ _))).
Defined.

(** * Further properties of the reducer composer *)

Lemma obj_get_NoDup (fields : list (string * Value)) k v :
  NoDup (map fst fields) → (k, v) ∈ fields → obj_get fields k = v.
Proof.
  induction fields as [|[k' v'] fields IH]; simpl; intros Hnd Hin.
  - inversion Hin.
  - apply NoDup_cons in Hnd as [Hk Hnd].
    apply elem_of_cons in Hin as [[= -> ->]|Hin].
    + by rewrite String.eqb_refl.
    + destruct (String.eqb_spec k' k) as [->|_]; [|by apply IH].
      exfalso. apply Hk. apply list_elem_of_fmap. by exists (k, v).
Qed.

Lemma obj_get_absent (fields : list (string * Value)) k :
  k ∉ map fst fields → obj_get fields k = VUndef.
Proof.
  induction fields as [|[k' v'] fields IH]; simpl; [done |].
  intros Hnot. apply not_elem_of_cons in Hnot as [Hne Hnot].
  destruct (String.eqb_spec k' k) as [->|_]; [done | by apply IH].
Qed.

Lemma final_reducers_acc reducers rs acc :
  (∀ k v, (k, v) ∈ rs → obj_get reducers k = v) →
  NoDup (map fst rs) →
  (∀ k, k ∈ map fst rs → k ∉ map fst acc) →
  final_reducers reducers (map fst rs) acc
  = acc ++ List.filter (λ kv, is_function kv.2) rs.
Proof.
  revert acc. induction rs as [|[k v] rs IH]; intros acc Hget Hnd Hfresh; simpl.
  - by rewrite app_nil_r.
  - apply NoDup_cons in Hnd as [Hk Hnd].
    rewrite (Hget k v (list_elem_of_here _ _)).
    assert (∀ k' v', (k', v') ∈ rs → obj_get reducers k' = v') as Hget'.
    { intros k' v' Hin. by apply Hget, list_elem_of_further. }
    destruct (is_function v) eqn:Hv.
    + rewrite obj_set_fresh by (apply Hfresh, list_elem_of_here).
      rewrite IH; [by rewrite <- app_assoc | done | done |].
      intros k' Hk'. rewrite map_app. simpl. intros Hin.
      apply elem_of_app in Hin as [Hin|Hin].
      * by apply (Hfresh k' (list_elem_of_further _ _ _ Hk')).
      * apply list_elem_of_singleton in Hin. by subst.
    + apply IH; [done | done |].
      intros k' Hk'. by apply Hfresh, list_elem_of_further.
Qed.

(** X13. [combineReducers] keeps, in their order, exactly the entries
    whose value is a function: they are the reducers the closure it
    returns holds. *)
Theorem combineReducers_keeps_functions random_suffix call reducers w :
  NoDup (map fst reducers) →
  final_reducers reducers (map fst reducers) []
  = List.filter (λ kv, is_function kv.2) reducers ∧
  (∀ v w',
     combineReducers random_suffix call reducers w = (Returned v, w') →
     ∃ c sanityError,
       v = VComb c ∧
       combos w' !! c
       = Some (List.filter (λ kv, is_function kv.2) reducers, sanityError)).
Proof.
  intros Hnd.
  assert (final_reducers reducers (map fst reducers) []
          = List.filter (λ kv, is_function kv.2) reducers) as E.
  { apply (final_reducers_acc reducers reducers []); [| done |].
    - intros k v Hin. by apply obj_get_NoDup.
    - intros k _ Hin. inversion Hin. }
  split; [done |]. intros v w'. unfold combineReducers. rewrite E.
  destruct (assertReducerSanity _ _ _ _ _) as [[x|t|] w1]; try done;
    intros [= <- <-]; eexists _, _; (split; [reflexivity |]); simpl;
    by rewrite lookup_app_r, Nat.sub_diag.
Qed.

Lemma combineReducers_keeps_functions_witness :
  final_reducers [("count", VFun 0); ("label", VStr "none"); ("flag", VFun 8)]
    (map fst [("count", VFun 0); ("label", VStr "none"); ("flag", VFun 8)]) []
  = [("count", VFun 0); ("flag", VFun 8)].
Proof.
  assert (NoDup (map fst [("count", VFun 0); ("label", VStr "none"); ("flag", VFun 8)]))
    as Hnd by (apply (bool_decide_unpack _); vm_compute; exact I).
  exact (proj1 (combineReducers_keeps_functions demo_suffix (invoke demo_code 4)
                  [("count", VFun 0); ("label", VStr "none"); ("flag", VFun 8)]
                  empty_world Hnd)).
Defined.




(** X15. Given [null] for the state, the combined reducer raises a
    TypeError on the first slice it reads, before any reducer is
    called; with no slice at all it returns [null]. *)
Theorem combination_null_state call c finals sanity action w :
  combos w !! c = Some (finals, sanity) →
  sanity_raises sanity = false →
  combination call c VNull action w
  = (match finals with
     | [] => Returned VNull
     | _ :: _ => Threw (LibError CannotReadProperty)
     end, set_nextId (S (nextId w)) w).
Proof.
  intros Hc Hsan. unfold combination. rewrite Hc. simpl. rewrite Hsan.
  by destruct finals as [|[k r] finals].
Qed.

Lemma combination_null_state_witness :
  combination (invoke demo_code 4) 1 VNull (action_of 9 "INC") two_slices
  = (Threw (LibError CannotReadProperty), set_nextId (S (nextId two_slices)) two_slices).
Proof.
  apply (combination_null_state (invoke demo_code 4) 1
           [("count", VFun 0); ("flag", VFun 8)] None); reflexivity.
Defined.

Lemma combination_ignores_falsy_error call c c' finals t state action w :
  combos w !! c = Some (finals, Some t) → thrown_truthy t = false →
  combos w !! c' = Some (finals, None) →
  combination call c state action w = combination call c' state action w.
Proof.
  intros Hc Ht Hc'. unfold combination. rewrite Hc, Hc'.
  destruct (default_state state w) as [state0 w0]. simpl. by rewrite Ht.
Qed.

(** X16. Whatever a reducer raises while it is probed is caught by
    [combineReducers] and kept.  A truthy value is raised again by every
    call of the combined reducer; a falsy one, such as 0, is forgotten:
    the combined reducer then works as one made with no error. *)
Theorem thrown_probe_is_deferred code random_suffix call reducers w t w1 :
  assertReducerSanity random_suffix call
    (final_reducers reducers (map fst reducers) [])
    (map fst (final_reducers reducers (map fst reducers) [])) w = (Threw t, w1) →
  combineReducers random_suffix call reducers w
  = (Returned (VComb (length (combos w1))),
     set_combos
       (combos w1 ++ [(final_reducers reducers (map fst reducers) [], Some t)]) w1) ∧
  (thrown_truthy t = true →
   ∀ w2 fuel state action,
     evolves code (combineReducers random_suffix call reducers w).2 w2 →
     (invoke code (S fuel) (VComb (length (combos w1))) [state; action] w2).1
     = Threw t) ∧
  (thrown_truthy t = false →
   ∀ w2 call' c' state action,
     evolves code (combineReducers random_suffix call reducers w).2 w2 →
     combos w2 !! c' = Some (final_reducers reducers (map fst reducers) [], None) →
     combination call' (length (combos w1)) state action w2
     = combination call' c' state action w2).
Proof.
  intros Hprobe.
  assert (combineReducers random_suffix call reducers w
          = (Returned (VComb (length (combos w1))),
             set_combos
               (combos w1 ++
                [(final_reducers reducers (map fst reducers) [], Some t)]) w1)) as E.
  { unfold combineReducers. by rewrite Hprobe. }
  assert (∀ w2,
            evolves code (combineReducers random_suffix call reducers w).2 w2 →
            combos w2 !! length (combos w1)
            = Some (final_reducers reducers (map fst reducers) [], Some t)) as Hkept.
  { intros w2 Hev. rewrite E in Hev. simpl in Hev.
    eapply (stable_evolves _ (closure_at_stable _ _)); [exact Hev |].
    unfold closure_at. simpl. by rewrite lookup_app_r, Nat.sub_diag. }
  split; [done |]. split.
  - intros Ht w2 fuel state action Hev.
    change (invoke code (S fuel) (VComb ?c) [state; action] w2)
      with (combination (invoke code fuel) c state action w2).
    unfold combination. rewrite (Hkept w2 Hev).
    destruct (default_state state w2). simpl. by rewrite Ht.
  - intros Ht w2 call' c' state action Hev Hc'.
    by eapply combination_ignores_falsy_error; [apply Hkept | |].
Qed.

Lemma thrown_probe_is_deferred_witness :
  combination (invoke more_code 4) 1 (VObj 50 true [("z", VNum 5)])
    (action_of 9 "INC")
    (combineReducers demo_suffix (invoke more_code 4) [("z", VFun 22)] falsy_slices).2
  = combination (invoke more_code 4) 0 (VObj 50 true [("z", VNum 5)])
      (action_of 9 "INC")
      (combineReducers demo_suffix (invoke more_code 4) [("z", VFun 22)] falsy_slices).2.
Proof.
  assert (assertReducerSanity demo_suffix (invoke more_code 4)
            (final_reducers [("z", VFun 22)] (map fst [("z", VFun 22)]) [])
            (map fst (final_reducers [("z", VFun 22)] (map fst [("z", VFun 22)]) []))
            falsy_slices
          = (Threw (UserThrow (VNum 0)), set_nextId 1 falsy_slices)) as Hprobe
    by (vm_compute; reflexivity).
  exact (proj2 (proj2 (thrown_probe_is_deferred more_code demo_suffix
                         (invoke more_code 4) [("z", VFun 22)] falsy_slices
                         (UserThrow (VNum 0)) (set_nextId 1 falsy_slices) Hprobe))
           eq_refl _ (invoke more_code 4) 0 (VObj 50 true [("z", VNum 5)])
           (action_of 9 "INC") (evolves_refl _ _) eq_refl).
Defined.






(** * The warning about the shape of the state *)

Lemma filter_nil {A} (f : A → bool) (l : list A) :
  List.filter f l = [] ↔ ∀ x, x ∈ l → f x = false.
Proof.
  induction l as [|y l IH]; simpl.
  - split; [intros _ x Hin; inversion Hin | done].
  - destruct (f y) eqn:Hy; split.
    + discriminate.
    + intros H. by rewrite (H y (list_elem_of_here _ _)) in Hy.
    + intros H x Hin. apply elem_of_cons in Hin as [->|Hin]; [done | by apply IH].
    + intros H. apply IH. intros x Hin. by apply H, list_elem_of_further.
Qed.

Lemma cache_has_app inherited cache extra key :
  cache_has inherited cache key = true →
  cache_has inherited (cache ++ extra) key = true.
Proof.
  unfold cache_has. rewrite existsb_app.
  destruct (existsb _ cache), (inherited key); simpl; try done.
  by rewrite orb_true_r.
Qed.

Lemma cache_has_elem inherited cache key :
  key ∈ cache → cache_has inherited cache key = true.
Proof.
  intros Hin. unfold cache_has. apply orb_true_iff. left.
  apply existsb_exists. exists key. split; [by apply list_elem_of_In |].
  apply String.eqb_refl.
Qed.

Lemma warning_cache class_name inherited id fields reducers action cache :
  reducers ≠ [] →
  (getUnexpectedStateShapeWarningMessage class_name inherited
     (VObj id true fields) reducers action cache).2
  = cache ++ List.filter
               (λ key, negb (obj_has reducers key) && negb (cache_has inherited cache key))
               (map fst fields).
Proof.
  intros Hne. unfold getUnexpectedStateShapeWarningMessage.
  destruct reducers as [|r reducers]; [done |].
  cbn [map length Nat.eqb]. by destruct (Nat.ltb 0 _).
Qed.

(** X18. The warning names a key of the state once: after a call on a
    plain state, whatever else has been cached since, a call on a state
    with no other keys gives no message and caches nothing more.  (No
    reducer is named [hasOwnProperty], which the function calls on
    [reducers].) *)
Theorem unexpected_keys_warned_once
    class_name inherited id id' fields fields' reducers action action' cache extra :
  obj_has reducers "hasOwnProperty" = false →
  reducers ≠ [] →
  (∀ k, k ∈ map fst fields' → k ∈ map fst fields) →
  getUnexpectedStateShapeWarningMessage class_name inherited
    (VObj id' true fields') reducers action'
    ((getUnexpectedStateShapeWarningMessage class_name inherited
        (VObj id true fields) reducers action cache).2 ++ extra)
  = (None,
     (getUnexpectedStateShapeWarningMessage class_name inherited
        (VObj id true fields) reducers action cache).2 ++ extra).
Proof.
  intros _ Hne Hsub. rewrite warning_cache by done.
  set (seen := List.filter _ (map fst fields)).
  assert (List.filter
            (λ key, negb (obj_has reducers key)
                    && negb (cache_has inherited ((cache ++ seen) ++ extra) key))
            (map fst fields') = []) as E.
  { apply filter_nil. intros k Hk.
    destruct (obj_has reducers k) eqn:Hr; [done |].
    destruct (cache_has inherited cache k) eqn:Hc.
    - by rewrite <- app_assoc, (cache_has_app _ _ _ _ Hc).
    - rewrite (cache_has_app inherited (cache ++ seen) extra k); [done |].
      apply cache_has_elem, elem_of_app. right. unfold seen.
      apply list_elem_of_In, filter_In. split; [by apply list_elem_of_In, Hsub |].
      by rewrite Hr, Hc. }
  unfold getUnexpectedStateShapeWarningMessage.
  destruct reducers as [|r reducers]; [done |].
  cbn [map length Nat.eqb]. cbn [map] in E. rewrite E. simpl.
  by rewrite app_nil_r.
Qed.

Lemma unexpected_keys_warned_once_witness :
  getUnexpectedStateShapeWarningMessage class_of prototype_names
    (VObj 7 true [("count", VNum 1); ("old", VNum 2)]) [("count", VFun 0)]
    (action_of 9 "INC") ["old"]
  = (None, ["old"]).
Proof.
  assert ([("count", VFun 0)] ≠ []) as Hne by done.
  exact (unexpected_keys_warned_once class_of prototype_names 6 7
           [("count", VNum 1); ("old", VNum 2)] [("count", VNum 1); ("old", VNum 2)]
           [("count", VFun 0)] (action_of 8 INIT) (action_of 9 "INC") [] []
           eq_refl Hne (λ k H, H)).
Defined.

(** X19. There is no message exactly when there is a reducer, the
    state is a plain object, and each of its keys is the key of a
    reducer, is cached, or is a name every object inherits; nothing is
    cached then.  (No reducer is named [hasOwnProperty].) *)
Theorem state_shape_warning_silent
    class_name inherited inputState reducers action cache :
  obj_has reducers "hasOwnProperty" = false →
  ((getUnexpectedStateShapeWarningMessage class_name inherited
      inputState reducers action cache).1 = None ↔
   reducers ≠ [] ∧
   ∃ id fields,
     inputState = VObj id true fields ∧
     ∀ k, k ∈ map fst fields →
          obj_has reducers k = true ∨ existsb (String.eqb k) cache = true
          ∨ inherited k = true) ∧
  ((getUnexpectedStateShapeWarningMessage class_name inherited
      inputState reducers action cache).1 = None →
   (getUnexpectedStateShapeWarningMessage class_name inherited
      inputState reducers action cache).2 = cache).
Proof.
  intros _. unfold getUnexpectedStateShapeWarningMessage, cache_has.
  destruct reducers as [|r reducers]; cbn [map length Nat.eqb].
  { split; [|done]. split; [done | by intros [? _]]. }
  destruct inputState as [| | | | |id [] fields| | | |];
    try (split; [|done]; split; [done | by intros (_ & ? & ? & ? & _)]).
  set (unexpected := List.filter _ (map fst fields)).
  assert (unexpected = [] ↔
          ∀ k, k ∈ map fst fields →
               obj_has (r :: reducers) k = true ∨ existsb (String.eqb k) cache = true
               ∨ inherited k = true) as Hnil.
  { unfold unexpected. rewrite filter_nil. apply forall_proper. intros k.
    apply forall_proper. intros _.
    destruct (obj_has (r :: reducers) k), (existsb _ cache), (inherited k);
      simpl; intuition discriminate. }
  destruct unexpected as [|u us]; simpl; split.
  - split; [|done]. intros _. split; [done |]. exists id, fields. split; [done |].
    by apply Hnil.
  - intros _. by rewrite app_nil_r.
  - split; [done |]. intros (_ & id0 & fields0 & [= <- <-] & Hall).
    by apply Hnil in Hall.
  - done.
Qed.

Lemma state_shape_warning_silent_witness :
  (getUnexpectedStateShapeWarningMessage class_of prototype_names
     (VObj 7 true [("count", VNum 1); ("constructor", VNum 2)]) [("count", VFun 0)]
     (action_of 9 "INC") []).1
  = None.
Proof.
  apply (proj1 (state_shape_warning_silent class_of prototype_names
                  (VObj 7 true [("count", VNum 1); ("constructor", VNum 2)])
                  [("count", VFun 0)] (action_of 9 "INC") [] eq_refl)).
  split; [done |]. eexists _, _. split; [reflexivity |].
  intros k Hk. simpl in Hk.
  apply elem_of_cons in Hk as [->|Hk]; [by left |].
  apply list_elem_of_singleton in Hk as ->. by right; right.
Defined.

(** * Bound action creators *)

Lemma bound_set_fresh key b (fields : list (string * Body)) :
  key ∉ map fst fields → bound_set key b fields = fields ++ [(key, b)].
Proof.
  induction fields as [|[k x] fields IH]; simpl; [done |].
  intros Hnot. apply not_elem_of_cons in Hnot as [Hne Hnot].
  destruct (String.eqb_spec k key) as [->|_]; [done |].
  by rewrite IH.
Qed.

Lemma bind_keys_acc actionCreators dispatch rs acc :
  (∀ k v, (k, v) ∈ rs → obj_get actionCreators k = v) →
  NoDup (map fst rs) →
  (∀ k, k ∈ map fst rs → k ∉ map fst acc) →
  bind_keys actionCreators dispatch (map fst rs) acc
  = acc ++ map (λ kv, (kv.1, bindActionCreator kv.2 dispatch))
             (List.filter (λ kv, is_function kv.2) rs).
Proof.
  revert acc. induction rs as [|[k v] rs IH]; intros acc Hget Hnd Hfresh; simpl.
  - by rewrite app_nil_r.
  - apply NoDup_cons in Hnd as [Hk Hnd].
    rewrite (Hget k v (list_elem_of_here _ _)).
    assert (∀ k' v', (k', v') ∈ rs → obj_get actionCreators k' = v') as Hget'.
    { intros k' v' Hin. by apply Hget, list_elem_of_further. }
    destruct (is_function v) eqn:Hv.
    + rewrite bound_set_fresh by (apply Hfresh, list_elem_of_here).
      rewrite IH; [by rewrite <- app_assoc | done | done |].
      intros k' Hk'. rewrite map_app. simpl. intros Hin.
      apply elem_of_app in Hin as [Hin|Hin].
      * by apply (Hfresh k' (list_elem_of_further _ _ _ Hk')).
      * apply list_elem_of_singleton in Hin. by subst.
    + apply IH; [done | done |].
      intros k' Hk'. by apply Hfresh, list_elem_of_further.
Qed.

Lemma bind_keys_object fields dispatch :
  NoDup (map fst fields) →
  bind_keys fields dispatch (map fst fields) []
  = map (λ kv, (kv.1, bindActionCreator kv.2 dispatch))
      (List.filter (λ kv, is_function kv.2) fields).
Proof.
  intros Hnd. apply (bind_keys_acc fields dispatch fields []); [| done |].
  - intros k v Hin. by apply obj_get_NoDup.
  - intros k _ Hin. inversion Hin.
Qed.

(** X20. What [bindActionCreators] gives: for a function, that
    function bound; for an object, an object with, in their order, the
    keys whose value is a function, each bound, and none of the other
    keys; for anything else the error that names [null] or the type. *)
Theorem bindActionCreators_result actionCreators dispatch :
  (is_function actionCreators = true →
   bindActionCreators actionCreators dispatch
   = inr (BoundFunction (bindActionCreator actionCreators dispatch))) ∧
  (∀ id plain fields,
     actionCreators = VObj id plain fields → NoDup (map fst fields) →
     bindActionCreators actionCreators dispatch
     = inr (BoundObject
              (map (λ kv, (kv.1, bindActionCreator kv.2 dispatch))
                 (List.filter (λ kv, is_function kv.2) fields)))) ∧
  (is_function actionCreators = false →
   typeof actionCreators ≠ TObject ∨ actionCreators = VNull →
   bindActionCreators actionCreators dispatch
   = inl (bind_error (if strict_eq actionCreators VNull then "null"
                      else typeof_name (typeof actionCreators)))).
Proof.
  split; [|split].
  - intros Hf. unfold bindActionCreators. by rewrite Hf.
  - intros id plain fields -> Hnd. unfold bindActionCreators. simpl.
    by rewrite bind_keys_object.
  - intros Hf [Hty| ->]; [|done].
    unfold bindActionCreators. rewrite Hf. by destruct actionCreators.
Qed.

Lemma bindActionCreators_result_witness :
  bindActionCreators (VObj 3 true counter_creators) (VMethod MDispatch)
  = inr (BoundObject
           [("inc", bindActionCreator (VFun 20) (VMethod MDispatch));
            ("fail", bindActionCreator (VFun 24) (VMethod MDispatch))]) ∧
  bindActionCreators (VNum 3) (VMethod MDispatch) = inl (bind_error "number").
Proof.
  assert (NoDup (map fst counter_creators)) as Hnd
    by (apply (bool_decide_unpack _); vm_compute; exact I).
  assert (typeof (VNum 3) ≠ TObject ∨ VNum 3 = VNull) as Hty by (by left).
  split.
  - exact (proj1 (proj2 (bindActionCreators_result (VObj 3 true counter_creators)
                           (VMethod MDispatch)))
             3 true counter_creators eq_refl Hnd).
  - exact (proj2 (proj2 (bindActionCreators_result (VNum 3) (VMethod MDispatch)))
             eq_refl Hty).
Defined.

(** X21. Every function of the object [bindActionCreators] returns is
    bound to a function of the object it was given, under the same key;
    called, it calls that function with the same arguments and hands
    what it returns to [dispatch], whose result is the result of the
    call.  If the action creator raises, [dispatch] is not called. *)
Theorem bound_creator_dispatches call id plain fields dispatch bound key body :
  NoDup (map fst fields) →
  bindActionCreators (VObj id plain fields) dispatch = inr (BoundObject bound) →
  (key, body) ∈ bound →
  is_function (obj_get fields key) = true ∧
  ∀ args w,
    run call (body args) w
    = match call (obj_get fields key) args w with
      | (Returned action, w1) => call dispatch [action] w1
      | r => r
      end.
Proof.
  intros Hnd Hb Hin. unfold bindActionCreators in Hb. simpl in Hb.
  rewrite bind_keys_object in Hb by done. injection Hb as <-.
  apply list_elem_of_fmap in Hin as ([k v] & [= -> ->] & Hin).
  apply list_elem_of_In, filter_In in Hin as [Hin Hf].
  apply list_elem_of_In in Hin. rewrite (obj_get_NoDup fields k v Hnd Hin).
  split; [done |]. intros args w. unfold bindActionCreator. cbn [run].
  destruct (call v args w) as [[action|t|] w1]; cbn [run]; [|done|done].
  by destruct (call dispatch [action] w1) as [[x|t|] w2].
Qed.

Lemma bound_creator_dispatches_witness :
  (run (invoke more_code 4)
     (bindActionCreator (VFun 20) (VMethod MDispatch) [VNum 1])
     (created_with (VFun 0))).1
  = Returned (VObj 2 true [("type", VStr "INC"); ("by", VNum 1)]) ∧
  run (invoke more_code 4)
    (bindActionCreator (VFun 24) (VMethod MDispatch) [])
    (created_with (VFun 0))
  = (Threw (UserThrow (VStr "no action")), created_with (VFun 0)).
Proof.
  assert (NoDup (map fst counter_creators)) as Hnd
    by (apply (bool_decide_unpack _); vm_compute; exact I).
  assert ((("inc", bindActionCreator (VFun 20) (VMethod MDispatch)) : string * Body)
          ∈ [("inc", bindActionCreator (VFun 20) (VMethod MDispatch));
             ("fail", bindActionCreator (VFun 24) (VMethod MDispatch))]) as Hinc
    by apply list_elem_of_here.
  assert ((("fail", bindActionCreator (VFun 24) (VMethod MDispatch)) : string * Body)
          ∈ [("inc", bindActionCreator (VFun 20) (VMethod MDispatch));
             ("fail", bindActionCreator (VFun 24) (VMethod MDispatch))]) as Hfail
    by apply list_elem_of_further, list_elem_of_here.
  split.
  - rewrite (proj2 (bound_creator_dispatches (invoke more_code 4) 3 true
                      counter_creators (VMethod MDispatch) _ "inc" _ Hnd eq_refl Hinc)).
    vm_compute. reflexivity.
  - rewrite (proj2 (bound_creator_dispatches (invoke more_code 4) 3 true
                      counter_creators (VMethod MDispatch) _ "fail" _ Hnd eq_refl Hfail)).
    vm_compute. reflexivity.
Defined.
